(** * Sticky-routing worker pool: router, sandbox paths, instance keys, restarts

    A shallow embedding of [sticky-router.ts], [worker-sandbox.ts] and the
    restart bookkeeping of [worker-pool.ts], followed by the properties
    the specification states about them. *)

From Stdlib Require Import ZArith NArith List Bool Lia String Ascii DecimalString.
From Stdlib Require Import Sorted Permutation.
Import ListNotations.


(* ================================================================== *)
(** * Part I: the model                                                *)
(* ================================================================== *)

(** ** JavaScript values used by the sources *)
Module JS.

(** A JavaScript string is a sequence of UTF-16 code units; [charCodeAt]
    reads one unit, [length] counts units. *)
Definition jsstring := list N.

(** ASCII literals of the sources. *)
Definition lit (s : string) : jsstring :=
  map N_of_ascii (list_ascii_of_string s).

(** [===] on strings. *)
Fixpoint eqb (a b : jsstring) : bool :=
  match a, b with
  | [], [] => true
  | x :: a', y :: b' => N.eqb x y && eqb a' b'
  | _, _ => false
  end.

(** Template-literal rendering of a non-negative integer, as in [`${i}`]. *)
Definition of_nat (n : nat) : jsstring :=
  lit (NilZero.string_of_uint (Nat.to_uint n)).

(** ToInt32 and ToUint32 of an integral Number. *)
Definition toInt32 (z : Z) : Z := ((z + 2 ^ 31) mod 2 ^ 32 - 2 ^ 31)%Z.
Definition toUint32 (z : Z) : Z := (z mod 2 ^ 32)%Z.

(** [a ^ b]: both operands through ToInt32, result an int32. *)
Definition xor32 (a b : Z) : Z := Z.lxor (toInt32 a) (toInt32 b).

(** [Math.imul(a, b)]. *)
Definition imul (a b : Z) : Z := toInt32 (toInt32 a * toInt32 b)%Z.

(** Truthiness of [Map.get]'s result when the values are strings:
    [undefined] and the empty string are falsy. *)
Definition truthy (v : option jsstring) : bool :=
  match v with
  | Some (_ :: _) => true
  | _ => false
  end.

(** What a call throws.  [TypeError] stands for a property read on
    [undefined] (an array index out of range). *)
Inductive error : Type :=
| HashRingEmpty
| NoWorkersAvailable
| WorkerNotInPool (w : jsstring)
| SandboxNotInitialized
| TypeError.

Inductive result (A : Type) : Type :=
| Ok (a : A)
| Throw (e : error).
Arguments Ok {A} a.
Arguments Throw {A} e.

End JS.

(** ** [fnv1aHash] of sticky-router.ts, and FNV-1a as the specification words it *)
Module Hash.
Import JS.

Definition FNV_OFFSET_BASIS : Z := 2166136261%Z.
Definition FNV_PRIME : Z := 16777619%Z.

(** One iteration of the loop body:
    [hash ^= str.charCodeAt(i); hash = Math.imul(hash, 16777619)]. *)
Definition fnv1a_step (hash : Z) (c : N) : Z :=
  imul (xor32 hash (Z.of_N c)) FNV_PRIME.

(** [fnv1aHash(str)]: the loop runs over the code units in order, and
    [hash >>> 0] converts the final int32 to an unsigned 32-bit value. *)
Definition fnv1aHash (str : jsstring) : Z :=
  toUint32 (fold_left fnv1a_step str FNV_OFFSET_BASIS).

(** *** The specification's function *)








End Hash.

(** ** The consistent-hash router of sticky-router.ts *)
Module Router.
Import JS Hash.

Definition WorkerId := jsstring.
Definition UserId := jsstring.

Definition DEFAULT_VIRTUAL_NODES : nat := 150.

Record HashRingNode : Type := mkNode {
  hash : Z;
  workerId : WorkerId;
  virtualIndex : nat
}.

(** *** [Set<WorkerId>] and [Map<UserId, WorkerId>]

    Both iterate in insertion order; [Map.set] on a present key keeps its
    position, [delete] keeps the order of the others. *)
Definition set_has (s : list WorkerId) (w : WorkerId) : bool :=
  existsb (eqb w) s.

Definition set_add (s : list WorkerId) (w : WorkerId) : list WorkerId :=
  if set_has s w then s else s ++ [w].

Definition set_delete (s : list WorkerId) (w : WorkerId) : list WorkerId :=
  filter (fun x => negb (eqb x w)) s.

Fixpoint map_get (m : list (UserId * WorkerId)) (u : UserId) : option WorkerId :=
  match m with
  | [] => None
  | (k, v) :: m' => if eqb k u then Some v else map_get m' u
  end.

Fixpoint map_set (m : list (UserId * WorkerId)) (u : UserId) (w : WorkerId)
  : list (UserId * WorkerId) :=
  match m with
  | [] => [(u, w)]
  | (k, v) :: m' => if eqb k u then (k, w) :: m' else (k, v) :: map_set m' u w
  end.

Definition map_delete (m : list (UserId * WorkerId)) (u : UserId)
  : list (UserId * WorkerId) :=
  filter (fun kv => negb (eqb (fst kv) u)) m.

(** *** [ring.sort((a, b) => a.hash - b.hash)]

    [Array.prototype.sort] is stable, so its result is the one stable
    ordering by hash; insertion from the right computes it: a node goes
    in front of the first node whose hash is not smaller. *)
Fixpoint insert (x : HashRingNode) (l : list HashRingNode) : list HashRingNode :=
  match l with
  | [] => [x]
  | y :: l' => if (hash x <=? hash y)%Z then x :: l else y :: insert x l'
  end.

Definition sort (l : list HashRingNode) : list HashRingNode :=
  fold_right insert [] l.

(** *** [findNode]

    The [while (left < right)] loop, with the number of remaining
    iterations as fuel; [(left + right) >>> 1] is halving, the indices of
    an array being far below 2^31.  [ring[i]] out of range is [undefined],
    whose [.hash] read throws. *)
Fixpoint findNode_loop (fuel : nat) (ring : list HashRingNode) (targetHash : Z)
  (left right : nat) : result HashRingNode :=
  if left <? right then
    match fuel with
    | O => Throw TypeError
    | S fuel' =>
      let mid := Nat.div2 (left + right) in
      match nth_error ring mid with
      | None => Throw TypeError
      | Some m =>
        if (hash m <? targetHash)%Z
        then findNode_loop fuel' ring targetHash (mid + 1) right
        else findNode_loop fuel' ring targetHash left mid
      end
    end
  else
    match nth_error ring left with
    | Some n => Ok n
    | None => Throw TypeError
    end.

Definition findNode (ring : list HashRingNode) (targetHash : Z) : result HashRingNode :=
  match ring with
  | [] => Throw HashRingEmpty
  | first :: _ =>
    let left := 0 in
    let right := List.length ring - 1 in
    match nth_error ring right with
    | None => Throw TypeError
    | Some last =>
      if (targetHash >? hash last)%Z then Ok first
      else findNode_loop (List.length ring) ring targetHash left right
    end
  end.

(** *** The router object *)
Record StickyRouter : Type := mkRouter {
  ring : list HashRingNode;
  workers : list WorkerId;
  routingCache : list (UserId * WorkerId);
  virtualNodes : nat
}.

(** [new StickyRouter(virtualNodes)] *)
Definition new (vn : nat) : StickyRouter :=
  {| ring := []; workers := []; routingCache := []; virtualNodes := vn |}.

Definition virtualKey (w : WorkerId) (i : nat) : jsstring :=
  w ++ lit ":" ++ of_nat i.

(** The nodes the [for] loop of [addWorker] pushes, in order. *)
Definition virtualNodesOf (w : WorkerId) (vn : nat) : list HashRingNode :=
  map (fun i => mkNode (fnv1aHash (virtualKey w i)) w i) (seq 0 vn).

(** [invalidateAffectedRoutes] has an empty body. *)
Definition invalidateAffectedRoutes (r : StickyRouter) (newWorkerId : WorkerId)
  : StickyRouter := r.

Definition addWorker (r : StickyRouter) (w : WorkerId) : StickyRouter :=
  if set_has (workers r) w then r
  else
    invalidateAffectedRoutes
      {| ring := sort (ring r ++ virtualNodesOf w (virtualNodes r));
         workers := set_add (workers r) w;
         routingCache := routingCache r;
         virtualNodes := virtualNodes r |} w.

Definition removeWorker (r : StickyRouter) (w : WorkerId) : StickyRouter :=
  if negb (set_has (workers r) w) then r
  else
    {| ring := filter (fun node => negb (eqb (workerId node) w)) (ring r);
       workers := set_delete (workers r) w;
       routingCache := filter (fun kv => negb (eqb (snd kv) w)) (routingCache r);
       virtualNodes := virtualNodes r |}.

Record RoutingDecision : Type := mkDecision {
  decisionWorkerId : WorkerId;
  decisionUserId : UserId;
  hashValue : Z;
  isNewAssignment : bool
}.

(** [cachedWorkerId && this.workers.has(cachedWorkerId)] *)
Definition cacheHit (r : StickyRouter) (cachedWorkerId : option WorkerId) : bool :=
  truthy cachedWorkerId &&
  match cachedWorkerId with
  | Some w => set_has (workers r) w
  | None => false
  end.

(** [route(userId)]: the outcome and the router afterwards. *)
Definition route (r : StickyRouter) (userId : UserId)
  : result RoutingDecision * StickyRouter :=
  match ring r with
  | [] => (Throw NoWorkersAvailable, r)
  | _ :: _ =>
    let cachedWorkerId := map_get (routingCache r) userId in
    match cachedWorkerId with
    | Some w =>
      if cacheHit r cachedWorkerId then
        (Ok (mkDecision w userId (fnv1aHash userId) false), r)
      else
        match findNode (ring r) (fnv1aHash userId) with
        | Throw e => (Throw e, r)
        | Ok node =>
          (Ok (mkDecision (workerId node) userId (fnv1aHash userId)
                 (negb (truthy cachedWorkerId))),
           {| ring := ring r; workers := workers r;
              routingCache := map_set (routingCache r) userId (workerId node);
              virtualNodes := virtualNodes r |})
        end
    | None =>
      match findNode (ring r) (fnv1aHash userId) with
      | Throw e => (Throw e, r)
      | Ok node =>
        (Ok (mkDecision (workerId node) userId (fnv1aHash userId)
               (negb (truthy cachedWorkerId))),
         {| ring := ring r; workers := workers r;
            routingCache := map_set (routingCache r) userId (workerId node);
            virtualNodes := virtualNodes r |})
      end
    end
  end.

(** [peek(userId)]: [None] is [null]. *)
Definition peek (r : StickyRouter) (userId : UserId) : result (option WorkerId) :=
  match ring r with
  | [] => Ok None
  | _ :: _ =>
    match findNode (ring r) (fnv1aHash userId) with
    | Ok node => Ok (Some (workerId node))
    | Throw e => Throw e
    end
  end.

Definition forceAssign (r : StickyRouter) (userId : UserId) (w : WorkerId)
  : result unit * StickyRouter :=
  if negb (set_has (workers r) w) then (Throw (WorkerNotInPool w), r)
  else
    (Ok tt,
     {| ring := ring r; workers := workers r;
        routingCache := map_set (routingCache r) userId w;
        virtualNodes := virtualNodes r |}).

Definition clearAssignment (r : StickyRouter) (userId : UserId) : StickyRouter :=
  {| ring := ring r; workers := workers r;
     routingCache := map_delete (routingCache r) userId;
     virtualNodes := virtualNodes r |}.

Definition clearCache (r : StickyRouter) : StickyRouter :=
  {| ring := ring r; workers := workers r;
     routingCache := [];
     virtualNodes := virtualNodes r |}.

Definition getWorkers (r : StickyRouter) : list WorkerId := workers r.
Definition getAssignments (r : StickyRouter) : list (UserId * WorkerId) := routingCache r.
Definition routingTableSize (r : StickyRouter) : nat := List.length (routingCache r).

(** [getDistribution()]: a [Map<WorkerId, number>], every worker at 0,
    then one increment per cached value. *)
Fixpoint dist_incr (d : list (WorkerId * nat)) (w : WorkerId) : list (WorkerId * nat) :=
  match d with
  | [] => [(w, 1)]
  | (k, c) :: d' => if eqb k w then (k, c + 1) :: d' else (k, c) :: dist_incr d' w
  end.

Definition getDistribution (r : StickyRouter) : list (WorkerId * nat) :=
  fold_left dist_incr (map snd (routingCache r))
    (map (fun w => (w, 0)) (workers r)).

(** *** Persistence *)
Record StickyRouterState : Type := mkState {
  stateWorkers : list WorkerId;
  stateAssignments : list (UserId * WorkerId);
  stateVirtualNodes : nat
}.

Definition exportState (r : StickyRouter) : StickyRouterState :=
  {| stateWorkers := workers r;
     stateAssignments := routingCache r;
     stateVirtualNodes := virtualNodes r |}.

(** The body of the second loop of [fromState]. *)
Definition importAssignment (r : StickyRouter) (a : UserId * WorkerId) : StickyRouter :=
  if set_has (workers r) (snd a)
  then {| ring := ring r; workers := workers r;
          routingCache := map_set (routingCache r) (fst a) (snd a);
          virtualNodes := virtualNodes r |}
  else r.

Definition fromState (state : StickyRouterState) : StickyRouter :=
  let router := new (stateVirtualNodes state) in
  let router := fold_left addWorker (stateWorkers state) router in
  fold_left importAssignment (stateAssignments state) router.

(** [createStickyRouter(workerIds, virtualNodes)], the second argument
    defaulting to [DEFAULT_VIRTUAL_NODES] in the constructor. *)
Definition createStickyRouter (workerIds : list WorkerId) (vn : option nat) : StickyRouter :=
  fold_left addWorker workerIds
    (new (match vn with Some n => n | None => DEFAULT_VIRTUAL_NODES end)).

(** *** Operation sequences

    The calls a client can make on a router, and the routers they lead to. *)
Inductive op : Type :=
| OpAddWorker (w : WorkerId)
| OpRemoveWorker (w : WorkerId)
| OpRoute (u : UserId)
| OpForceAssign (u : UserId) (w : WorkerId)
| OpClearAssignment (u : UserId)
| OpClearCache.

Definition step (r : StickyRouter) (o : op) : StickyRouter :=
  match o with
  | OpAddWorker w => addWorker r w
  | OpRemoveWorker w => removeWorker r w
  | OpRoute u => snd (route r u)
  | OpForceAssign u w => snd (forceAssign r u w)
  | OpClearAssignment u => clearAssignment r u
  | OpClearCache => clearCache r
  end.

Inductive reachable : StickyRouter -> Prop :=
| reach_new : forall vn, reachable (new vn)
| reach_fromState : forall st, reachable (fromState st)
| reach_step : forall r o, reachable r -> reachable (step r o).

End Router.

(** ** Paths, as [node:path] joins them

    [join] is Node's, not this repository's.  A path is kept in the form
    [path.join] returns it in: whether it is absolute, and its segments
    after normalisation (no empty or ["."] segment, [".."] only in front
    of a relative path). *)
Module Path.
Import JS.

Record path : Type := mkPath {
  absolute : bool;
  segments : list jsstring
}.

Definition SLASH : N := 47.
Definition DOT : N := 46.

(** The segments between the separators of a string. *)
Fixpoint split (s : jsstring) : list jsstring :=
  match s with
  | [] => [[]]
  | c :: s' =>
    if (c =? SLASH)%N then [] :: split s'
    else
      match split s' with
      | seg :: rest => (c :: seg) :: rest
      | [] => [[c]]
      end
  end.

Fixpoint last_segment (stack : list jsstring) : option jsstring :=
  match stack with
  | [] => None
  | [x] => Some x
  | _ :: stack' => last_segment stack'
  end.

(** One segment of Node's [normalizeString]: empty and ["."] segments are
    dropped, [".."] removes the segment before it unless there is none or
    it is itself [".."], in which case it is kept when the path is
    relative and dropped when it is absolute. *)
Definition push_segment (allowAboveRoot : bool) (stack : list jsstring) (seg : jsstring)
  : list jsstring :=
  if eqb seg [] || eqb seg [DOT] then stack
  else if eqb seg [DOT; DOT] then
    match last_segment stack with
    | Some l =>
      if eqb l [DOT; DOT]
      then (if allowAboveRoot then stack ++ [seg] else stack)
      else removelast stack
    | None => if allowAboveRoot then stack ++ [seg] else stack
    end
  else stack ++ [seg].

Definition normalizeString (allowAboveRoot : bool) (stack : list jsstring)
  (segs : list jsstring) : list jsstring :=
  fold_left (push_segment allowAboveRoot) segs stack.

(** [normalize(s)] of a path given as a string. *)
Definition parse (s : jsstring) : path :=
  let isAbsolute := match s with c :: _ => (c =? SLASH)%N | [] => false end in
  {| absolute := isAbsolute;
     segments := normalizeString (negb isAbsolute) [] (split s) |}.

(** [join(a, b)] of two strings: the non-empty ones, joined by a
    separator, normalised. *)
Definition join_strings (a b : jsstring) : path :=
  match a, b with
  | [], _ => parse b
  | _, [] => parse a
  | _, _ => parse (a ++ [SLASH] ++ b)
  end.

(** [join(p, name)] where [p] is itself the result of a [join]. *)
Definition join (p : path) (name : jsstring) : path :=
  {| absolute := absolute p;
     segments := normalizeString (negb (absolute p)) (segments p) (split name) |}.

(** The string [path.join] returns. *)
Fixpoint intercalate (segs : list jsstring) : jsstring :=
  match segs with
  | [] => []
  | [x] => x
  | x :: rest => x ++ [SLASH] ++ intercalate rest
  end.

Definition render (p : path) : jsstring :=
  match absolute p, segments p with
  | true, segs => SLASH :: intercalate segs
  | false, [] => [DOT]
  | false, segs => intercalate segs
  end.

Definition path_eqb (p q : path) : bool :=
  Bool.eqb (absolute p) (absolute q) &&
  (fix go (a b : list jsstring) : bool :=
     match a, b with
     | [], [] => true
     | x :: a', y :: b' => eqb x y && go a' b'
     | _, _ => false
     end) (segments p) (segments q).

(** [p] resolves to [root] or to a location below it. *)
Definition under (root p : path) : Prop :=
  absolute p = absolute root /\
  exists rest, segments p = segments root ++ rest /\ ~ In [DOT; DOT] rest.

(** [p] resolves to a location strictly below [root]. *)
Definition strictly_under (root p : path) : Prop :=
  absolute p = absolute root /\
  exists rest, rest <> [] /\ segments p = segments root ++ rest /\ ~ In [DOT; DOT] rest.

(** A segment that names a directory entry: not empty, without a
    separator, and neither ["."] nor [".."]. *)
Definition plain_segment (s : jsstring) : Prop :=
  s <> [] /\ ~ In SLASH s /\ s <> [DOT] /\ s <> [DOT; DOT].

End Path.

(** ** The sandbox of worker-sandbox.ts *)
Module Sandbox.
Import JS Path.

Definition WorkerId := jsstring.

Record SandboxPaths : Type := mkPaths {
  root : path;
  sessions : path;
  temp : path;
  cache : path;
  state : path;
  logs : path;
  credentials : path;
  config : path;
  keys : path
}.

Record SandboxMetadata : Type := mkMetadata {
  metaWorkerId : WorkerId;
  createdAt : Z;
  lastAccessed : Z;
  version : Z;
  keyFingerprint : option jsstring
}.

Definition SANDBOX_VERSION : Z := 1.
Definition METADATA_FILE : jsstring := lit "sandbox.json".

Record WorkerSandbox : Type := mkSandbox {
  workerId : WorkerId;
  paths : SandboxPaths;
  initialized : bool
}.

(** [new WorkerSandbox(workerId, baseDir)] *)
Definition new (workerId : WorkerId) (baseDir : jsstring) : WorkerSandbox :=
  let workerRoot := join_strings baseDir workerId in
  {| workerId := workerId;
     paths :=
       {| root := workerRoot;
          sessions := join workerRoot (lit "sessions");
          temp := join workerRoot (lit "temp");
          cache := join workerRoot (lit "cache");
          state := join workerRoot (lit "state");
          logs := join workerRoot (lit "logs");
          credentials := join workerRoot (lit "credentials");
          config := join workerRoot (lit "config");
          keys := join workerRoot (lit "keys") |};
     initialized := false |}.

(** *** Sanitisation: [s.replace(/[^...]/g, '_')]

    The patterns carry no [u] flag, so they test one code unit at a
    time. *)
Definition UNDERSCORE : N := 95.
Definition HYPHEN : N := 45.

Definition is_alnum (c : N) : bool :=
  ((97 <=? c) && (c <=? 122) || (65 <=? c) && (c <=? 90) || (48 <=? c) && (c <=? 57))%N.

(** [[a-zA-Z0-9._-]] *)
Definition name_char (c : N) : bool :=
  is_alnum c || (c =? DOT)%N || (c =? UNDERSCORE)%N || (c =? HYPHEN)%N.

(** [[a-zA-Z0-9_-]] *)
Definition id_char (c : N) : bool :=
  is_alnum c || (c =? UNDERSCORE)%N || (c =? HYPHEN)%N.

Definition replace_outside (allowed : N -> bool) (s : jsstring) : jsstring :=
  map (fun c => if allowed c then c else UNDERSCORE) s.

Definition getSessionPath (sb : WorkerSandbox) (sessionId : jsstring) : path :=
  let safeId := replace_outside id_char sessionId in
  join (sessions (paths sb)) (safeId ++ lit ".json").

Definition getTempPath (sb : WorkerSandbox) (filename : jsstring) : path :=
  let safeFilename := replace_outside name_char filename in
  join (temp (paths sb)) safeFilename.

Definition getCachePath (sb : WorkerSandbox) (key : jsstring) : path :=
  let safeKey := replace_outside name_char key in
  join (cache (paths sb)) safeKey.

Definition getStatePath (sb : WorkerSandbox) (name : jsstring) : path :=
  let safeName := replace_outside name_char name in
  join (state (paths sb)) (safeName ++ lit ".json").

Definition getLogPath (sb : WorkerSandbox) (name : jsstring) : path :=
  let safeName := replace_outside name_char name in
  join (logs (paths sb)) (safeName ++ lit ".log").

Definition getCredentialPath (sb : WorkerSandbox) (name : jsstring) : path :=
  let safeName := replace_outside name_char name in
  join (credentials (paths sb)) safeName.

Definition getConfigPath (sb : WorkerSandbox) (name : jsstring) : path :=
  let safeName := replace_outside name_char name in
  join (config (paths sb)) safeName.

(** *** The world a sandbox runs in

    Text files by path, the metadata documents by path (a [sandbox.json]
    is kept as the record it serialises), the clock [Date.now()] reads,
    and the generator [randomBytes] draws from. *)
Record World : Type := mkWorld {
  files : list (path * jsstring);
  metadataFiles : list (path * SandboxMetadata);
  now : Z;
  random : nat -> Byte.byte;
  drawn : nat
}.

Fixpoint lookup {A : Type} (l : list (path * A)) (p : path) : option A :=
  match l with
  | [] => None
  | (q, a) :: l' => if path_eqb q p then Some a else lookup l' p
  end.

Fixpoint update {A : Type} (l : list (path * A)) (p : path) (a : A) : list (path * A) :=
  match l with
  | [] => [(p, a)]
  | (q, b) :: l' => if path_eqb q p then (q, a) :: l' else (q, b) :: update l' p a
  end.

(** [readFile(p, 'utf-8')]; [None] is a rejection. *)
Definition readFile (w : World) (p : path) : option jsstring := lookup (files w) p.

(** [writeFile(p, content)], into a directory that exists. *)
Definition writeFile (w : World) (p : path) (content : jsstring) : World :=
  {| files := update (files w) p content; metadataFiles := metadataFiles w;
     now := now w; random := random w; drawn := drawn w |}.

(** [randomBytes(n)] *)
Definition randomBytes (w : World) (n : nat) : list Byte.byte * World :=
  (map (random w) (seq (drawn w) n),
   {| files := files w; metadataFiles := metadataFiles w;
      now := now w; random := random w; drawn := drawn w + n |}).

(** *** Hexadecimal text of a buffer *)
Definition hex_digit (d : N) : N :=
  (if d <? 10 then 48 + d else 87 + d)%N.

Definition hex_value (c : N) : option N :=
  (if (48 <=? c) && (c <=? 57) then Some (c - 48)
   else if (97 <=? c) && (c <=? 102) then Some (c - 87)
   else if (65 <=? c) && (c <=? 70) then Some (c - 55)
   else None)%N.

(** [buf.toString('hex')] *)
Definition toHex (buf : list Byte.byte) : jsstring :=
  flat_map (fun b => [hex_digit (Byte.to_N b / 16); hex_digit (Byte.to_N b mod 16)]) buf.

(** [Buffer.from(s, 'hex')]: decoding stops at the first pair that is not
    two hexadecimal digits. *)
Fixpoint fromHex (s : jsstring) : list Byte.byte :=
  match s with
  | hi :: lo :: rest =>
    match hex_value hi, hex_value lo with
    | Some h, Some l =>
      match Byte.of_N (16 * h + l) with
      | Some b => b :: fromHex rest
      | None => []
      end
    | _, _ => []
    end
  | _ => []
  end.

(** [s.trim()] *)
Definition is_whitespace (c : N) : bool :=
  ((9 <=? c) && (c <=? 13) || (c =? 32) || (c =? 160) || (c =? 5760)
   || (8192 <=? c) && (c <=? 8202) || (c =? 8232) || (c =? 8233)
   || (c =? 8239) || (c =? 8287) || (c =? 12288) || (c =? 65279))%N.

Fixpoint trimStart (s : jsstring) : jsstring :=
  match s with
  | c :: s' => if is_whitespace c then trimStart s' else s
  | [] => []
  end.

Definition trim (s : jsstring) : jsstring :=
  rev (trimStart (rev (trimStart s))).

(** [`${Date.now()}`] *)
Definition of_Z (z : Z) : jsstring :=
  lit (NilZero.string_of_int (Z.to_int z)).

(** *** Instance keys *)
Record InstanceKeys : Type := mkKeys {
  privateKey : list Byte.byte;
  instanceId : jsstring;
  fingerprint : jsstring
}.

Definition keyPath (sb : WorkerSandbox) : path := join (keys (paths sb)) (lit "instance.key").
Definition idPath (sb : WorkerSandbox) : path := join (keys (paths sb)) (lit "instance.id").

Definition generateInstanceKeys (sb : WorkerSandbox) (w : World) : InstanceKeys * World :=
  let (privateKey, w1) := randomBytes w 32 in
  let fingerprint := toHex (firstn 8 privateKey) in
  let (suffix, w2) := randomBytes w1 4 in
  let instanceId := workerId sb ++ lit "-" ++ of_Z (now w2) ++ lit "-" ++ toHex suffix in
  let w3 := writeFile w2 (keyPath sb) (toHex privateKey) in
  let w4 := writeFile w3 (idPath sb) instanceId in
  (mkKeys privateKey instanceId fingerprint, w4).

(** The [try] reads both files; a rejection of either lands in the
    [catch], which generates both anew. *)
Definition getOrCreateInstanceKeys (sb : WorkerSandbox) (w : World) : InstanceKeys * World :=
  match readFile w (keyPath sb), readFile w (idPath sb) with
  | Some privateKeyHex, Some instanceId =>
    let privateKey := fromHex (trim privateKeyHex) in
    let fingerprint := toHex (firstn 8 privateKey) in
    (mkKeys privateKey (trim instanceId) fingerprint, w)
  | _, _ => generateInstanceKeys sb w
  end.

Definition metadataPath (sb : WorkerSandbox) : path := join (root (paths sb)) METADATA_FILE.

Definition getMetadata (sb : WorkerSandbox) (w : World) : option SandboxMetadata :=
  lookup (metadataFiles w) (metadataPath sb).

Definition writeMetadata (sb : WorkerSandbox) (w : World) (m : SandboxMetadata) : World :=
  {| files := files w; metadataFiles := update (metadataFiles w) (metadataPath sb) m;
     now := now w; random := random w; drawn := drawn w |}.

(** [initialize()]: the keys it obtained ([None] when the call returned
    at once), the sandbox object and the world afterwards.  The [mkdir]
    calls create directories only and leave every file as it is. *)
Definition initialize (sb : WorkerSandbox) (w : World)
  : option InstanceKeys * WorkerSandbox * World :=
  if initialized sb then (None, sb, w)
  else
    let (keys, w1) := getOrCreateInstanceKeys sb w in
    let metadata :=
      {| metaWorkerId := workerId sb;
         createdAt := match getMetadata sb w1 with
                      | Some existing => createdAt existing
                      | None => now w1
                      end;
         lastAccessed := now w1;
         version := SANDBOX_VERSION;
         keyFingerprint := Some (fingerprint keys) |} in
    let w2 := writeMetadata sb w1 metadata in
    (Some keys,
     {| workerId := workerId sb; paths := paths sb; initialized := true |},
     w2).

(** [getInstanceKeys()] *)
Definition getInstanceKeys (sb : WorkerSandbox) (w : World) : result InstanceKeys * World :=
  if negb (initialized sb) then (Throw SandboxNotInitialized, w)
  else let (keys, w') := getOrCreateInstanceKeys sb w in (Ok keys, w').

(** A world with no files yet, for examples. *)
Definition emptyWorld : World :=
  {| files := []; metadataFiles := []; now := 1700000000000%Z;
     random := fun n => match Byte.of_nat n with Some b => b | None => Byte.x00 end;
     drawn := 0 |}.

End Sandbox.

(** ** Exit handling and restart bookkeeping of worker-pool.ts *)
Module Pool.
Import JS.

Definition WorkerId := jsstring.

Inductive WorkerState : Type :=
| Starting | Ready | Busy | Stopping | Stopped | Crashed.

Record WorkerPoolConfig : Type := mkConfig {
  restartDelay : Z;
  maxRestartAttempts : Z;
  restartWindow : Z
}.

(** The restart knobs of [DEFAULT_WORKER_POOL_CONFIG]. *)
Definition DEFAULT_WORKER_POOL_CONFIG : WorkerPoolConfig :=
  {| restartDelay := 1000; maxRestartAttempts := 5; restartWindow := 60000 |}.

(** A slot's record.  [process] tells whether a child handle is held;
    [pendingRequests] keeps the ids of the requests in flight. *)
Record WorkerInstance : Type := mkInstance {
  workerId : WorkerId;
  process : bool;
  state : WorkerState;
  restartCount : nat;
  restartTimes : list Z;
  pendingRequests : list jsstring
}.

(** What the pool emits or arms. *)
Inductive effect : Type :=
| RejectPending (requestId : jsstring)
| EmitWorkerCrash (w : WorkerId)
| EmitWorkerRestart (w : WorkerId) (attempt : nat)
| EmitWorkerReady (w : WorkerId)
| EmitPoolDegraded
| ArmRestartTimer (w : WorkerId) (delay : Z) (attempt : nat).

Record WorkerPool : Type := mkPool {
  config : WorkerPoolConfig;
  workers : list (WorkerId * WorkerInstance);
  stopping : bool;
  log : list effect
}.

Fixpoint get (m : list (WorkerId * WorkerInstance)) (w : WorkerId) : option WorkerInstance :=
  match m with
  | [] => None
  | (k, v) :: m' => if eqb k w then Some v else get m' w
  end.

Fixpoint set (m : list (WorkerId * WorkerInstance)) (w : WorkerId) (v : WorkerInstance)
  : list (WorkerId * WorkerInstance) :=
  match m with
  | [] => [(w, v)]
  | (k, v') :: m' => if eqb k w then (k, v) :: m' else (k, v') :: set m' w v
  end.

Definition healthy (s : WorkerState) : bool :=
  match s with Ready | Busy => true | _ => false end.

(** [checkPoolHealth()]: [pool:degraded] when some slot is neither Ready
    nor Busy. *)
Definition checkPoolHealth (ws : list (WorkerId * WorkerInstance)) : list effect :=
  if List.length (filter (fun kv => healthy (state (snd kv))) ws) <? List.length ws
  then [EmitPoolDegraded] else [].

(** [spawnWorker(workerId)], up to the fork: a new record is built and
    stored under the slot's id. *)
Definition spawnWorker (p : WorkerPool) (w : WorkerId) : WorkerPool :=
  let worker :=
    {| workerId := w; process := true; state := Starting;
       restartCount := 0; restartTimes := []; pendingRequests := [] |} in
  {| config := config p; workers := set (workers p) w worker;
     stopping := stopping p; log := log p |}.

(** [handleWorkerMessage] on a [Ready] message. *)
Definition handleReady (p : WorkerPool) (w : WorkerId) : WorkerPool :=
  match get (workers p) w with
  | None => p
  | Some worker =>
    {| config := config p;
       workers := set (workers p) w
         {| workerId := workerId worker; process := process worker; state := Ready;
            restartCount := restartCount worker; restartTimes := restartTimes worker;
            pendingRequests := pendingRequests worker |};
       stopping := stopping p;
       log := log p ++ [EmitWorkerReady w] |}
  end.

(** The bookkeeping of [handleWorkerExit] on the slot's record, [now]
    being what [Date.now()] returned: the record afterwards and whether a
    restart was scheduled. *)
Definition exitRecord (cfg : WorkerPoolConfig) (worker : WorkerInstance) (now : Z)
  : WorkerInstance * bool :=
  let times := filter (fun t => (now - t <? restartWindow cfg)%Z) (restartTimes worker) in
  if (Z.of_nat (List.length times) >=? maxRestartAttempts cfg)%Z then
    ({| workerId := workerId worker; process := false; state := Crashed;
        restartCount := restartCount worker; restartTimes := times;
        pendingRequests := [] |}, false)
  else
    ({| workerId := workerId worker; process := false; state := Stopped;
        restartCount := restartCount worker + 1; restartTimes := times ++ [now];
        pendingRequests := [] |}, true).

Definition handleWorkerExit (p : WorkerPool) (w : WorkerId) (now : Z) : WorkerPool :=
  match get (workers p) w with
  | None => p
  | Some worker =>
    let rejected := map RejectPending (pendingRequests worker) in
    if stopping p then
      {| config := config p;
         workers := set (workers p) w
           {| workerId := workerId worker; process := false; state := Stopped;
              restartCount := restartCount worker; restartTimes := restartTimes worker;
              pendingRequests := [] |};
         stopping := stopping p;
         log := log p ++ rejected |}
    else
      let (worker', restart) := exitRecord (config p) worker now in
      let ws := set (workers p) w worker' in
      {| config := config p; workers := ws; stopping := stopping p;
         log := log p ++ rejected ++
           (if restart
            then [ArmRestartTimer w (restartDelay (config p)) (restartCount worker')]
            else EmitWorkerCrash w :: checkPoolHealth ws) |}
  end.

(** The callback of the restart timer; [attempt] is the [restartCount] of
    the record the exit handler held. *)
Definition restartTimerFired (p : WorkerPool) (w : WorkerId) (attempt : nat) : WorkerPool :=
  if stopping p then p
  else
    spawnWorker
      {| config := config p; workers := workers p; stopping := stopping p;
         log := log p ++ [EmitWorkerRestart w attempt] |} w.

(** One life of a child in a slot: the restart timer fires, the child
    reports Ready, and it exits at [now]. *)
Definition crashCycle (w : WorkerId) (p : WorkerPool) (now : Z) : WorkerPool :=
  let attempt := match get (workers p) w with
                 | Some worker => restartCount worker
                 | None => 0
                 end in
  handleWorkerExit (handleReady (restartTimerFired p w attempt) w) w now.

(** A started pool with one slot, its child running. *)
Definition started (cfg : WorkerPoolConfig) (w : WorkerId) : WorkerPool :=
  handleReady
    (spawnWorker {| config := cfg; workers := []; stopping := false; log := [] |} w) w.

(** The slot's record after its children exit at [t0], then (respawned
    each time) at the times of [later]. *)
Definition afterExits (cfg : WorkerPoolConfig) (w : WorkerId) (t0 : Z) (later : list Z)
  : WorkerPool :=
  fold_left (crashCycle w) later (handleWorkerExit (started cfg w) w t0).

(** The exit handler alone, applied again and again to one record that
    is never replaced. *)
Definition exitsOnOneRecord (cfg : WorkerPoolConfig) (worker : WorkerInstance)
  (times : list Z) : WorkerInstance :=
  fold_left (fun wk t => fst (exitRecord cfg wk t)) times worker.


(** *** [filterSensitiveEnv] *)

(** The two shapes of [SENSITIVE_ENV_PATTERNS]: [/^NAME$/i] and
    [/_SUFFIX$/i]. *)
Inductive pattern : Type :=
| Whole (name : jsstring)
| EndsWith (suffix : jsstring).

(** Case folding of the [i] flag against ASCII pattern characters: an
    ASCII letter is compared in upper case, and a code unit outside ASCII
    never folds to an ASCII one. *)
Definition upper (c : N) : N :=
  if ((97 <=? c) && (c <=? 122))%N then (c - 32)%N else c.

Fixpoint ci_eqb (a b : jsstring) : bool :=
  match a, b with
  | [], [] => true
  | x :: a', y :: b' => (upper x =? upper y)%N && ci_eqb a' b'
  | _, _ => false
  end.

Definition ends_with_ci (key suffix : jsstring) : bool :=
  (List.length suffix <=? List.length key) &&
  ci_eqb (skipn (List.length key - List.length suffix) key) suffix.

(** [pattern.test(key)] *)
Definition test (p : pattern) (key : jsstring) : bool :=
  match p with
  | Whole name => ci_eqb key name
  | EndsWith suffix => ends_with_ci key suffix
  end.

Definition SENSITIVE_ENV_PATTERNS : list pattern :=
  [ Whole (lit "ANTHROPIC_API_KEY");
    Whole (lit "OPENAI_API_KEY");
    Whole (lit "CLAUDE_API_KEY");
    Whole (lit "DISCORD_TOKEN");
    Whole (lit "DISCORD_BOT_TOKEN");
    Whole (lit "TELEGRAM_BOT_TOKEN");
    Whole (lit "SLACK_BOT_TOKEN");
    Whole (lit "SLACK_SIGNING_SECRET");
    Whole (lit "CLAWDBOT_OAUTH_DIR");
    Whole (lit "GITHUB_TOKEN");
    Whole (lit "GH_TOKEN");
    Whole (lit "NPM_TOKEN");
    EndsWith (lit "_TOKEN");
    EndsWith (lit "_SECRET");
    EndsWith (lit "_API_KEY");
    EndsWith (lit "_PASSWORD");
    EndsWith (lit "_PRIVATE_KEY") ].

(** [SENSITIVE_ENV_PATTERNS.some((pattern) => pattern.test(key))] *)
Definition isSensitive (key : jsstring) : bool :=
  existsb (fun p => test p key) SENSITIVE_ENV_PATTERNS.

(** [obj[key] = value] on a record kept in property order. *)
Fixpoint env_set {V : Type} (m : list (jsstring * V)) (k : jsstring) (v : V)
  : list (jsstring * V) :=
  match m with
  | [] => [(k, v)]
  | (k', v') :: m' => if eqb k' k then (k', v) :: m' else (k', v') :: env_set m' k v
  end.


(** The loop body over [Object.entries(env)]; [None] is an [undefined]
    value. *)
Definition filterEntry (filtered : list (jsstring * jsstring))
  (entry : jsstring * option jsstring) : list (jsstring * jsstring) :=
  match snd entry with
  | None => filtered
  | Some value =>
    if negb (isSensitive (fst entry)) then env_set filtered (fst entry) value
    else filtered
  end.

Definition filterSensitiveEnv (env : list (jsstring * option jsstring))
  : list (jsstring * jsstring) :=
  fold_left filterEntry env [].





(** *** Dispatch: the synchronous part of [sendRequest] *)

(** How [sendRequest] ends before the request is handed to a worker:
    one of its [throw]s, the [throw] of a router call, or the record the
    request goes to. *)
Inductive dispatch : Type :=
| PoolNotStarted
| RouterThrew (e : JS.error)
| WorkerNotFound (w : WorkerId)
| NoHealthyWorkers
| DispatchTo (worker : WorkerInstance).

(** [findHealthyWorker()]: the first record, in map order, that is Ready
    or Busy. *)
Fixpoint findHealthyWorker (ws : list (WorkerId * WorkerInstance)) : option WorkerInstance :=
  match ws with
  | [] => None
  | (_, worker) :: ws' =>
    if healthy (state worker) then Some worker else findHealthyWorker ws'
  end.

Definition sendRequest (started : bool) (router : Router.StickyRouter)
  (ws : list (WorkerId * WorkerInstance)) (userId : Router.UserId)
  : dispatch * Router.StickyRouter :=
  if negb started then (PoolNotStarted, router)
  else
    match Router.route router userId with
    | (Throw e, router1) => (RouterThrew e, router1)
    | (Ok decision, router1) =>
      match get ws (Router.decisionWorkerId decision) with
      | None => (WorkerNotFound (Router.decisionWorkerId decision), router1)
      | Some worker =>
        if negb (healthy (state worker)) then
          match findHealthyWorker ws with
          | None => (NoHealthyWorkers, router1)
          | Some healthyWorker =>
            match Router.forceAssign router1 userId (workerId healthyWorker) with
            | (Throw e, router2) => (RouterThrew e, router2)
            | (Ok _, router2) => (DispatchTo healthyWorker, router2)
            end
          end
        else (DispatchTo worker, router1)
      end
    end.

(** *** Pending requests: [sendRequestToWorker], its timer, [handleResponse] *)

Record WorkerResponse : Type := mkResponse {
  requestId : jsstring;
  success : bool;
  duration : Z;
  error : option jsstring
}.

(** What settles or reports a request. *)
Inductive settlement : Type :=
| SendRequest (requestId : jsstring)
| ClearTimer (requestId : jsstring)
| Resolve (requestId : jsstring)
| Reject (requestId : jsstring)
| RejectTimedOut (requestId : jsstring)
| EmitRequestComplete (requestId : jsstring) (duration : Z)
| EmitRequestFailed (requestId : jsstring) (error : jsstring)
| WarnUnknownResponse (requestId : jsstring).

(** [Map.set] / [Map.delete] / [Map.has] on the pending map, ids only. *)
Fixpoint pending_set (m : list jsstring) (id : jsstring) : list jsstring :=
  match m with
  | [] => [id]
  | k :: m' => if eqb k id then k :: m' else k :: pending_set m' id
  end.

Definition pending_delete (m : list jsstring) (id : jsstring) : list jsstring :=
  filter (fun k => negb (eqb k id)) m.

Definition pending_has (m : list jsstring) (id : jsstring) : bool :=
  existsb (fun k => eqb k id) m.

Definition with_pending (worker : WorkerInstance) (pending : list jsstring) : WorkerInstance :=
  {| workerId := workerId worker; process := process worker; state := state worker;
     restartCount := restartCount worker; restartTimes := restartTimes worker;
     pendingRequests := pending |}.

(** [sendRequestToWorker]: the request is registered, then sent. *)
Definition sendRequestToWorker (worker : WorkerInstance) (id : jsstring)
  : WorkerInstance * list settlement :=
  (with_pending worker (pending_set (pendingRequests worker) id), [SendRequest id]).

(** The callback of the request timer. *)
Definition requestTimedOut (worker : WorkerInstance) (id : jsstring)
  : WorkerInstance * list settlement :=
  (with_pending worker (pending_delete (pendingRequests worker) id), [RejectTimedOut id]).

(** [handleResponse(worker, response)] *)
Definition handleResponse (worker : WorkerInstance) (response : WorkerResponse)
  : WorkerInstance * list settlement :=
  if negb (pending_has (pendingRequests worker) (requestId response)) then
    (worker, [WarnUnknownResponse (requestId response)])
  else
    (with_pending worker (pending_delete (pendingRequests worker) (requestId response)),
     ClearTimer (requestId response) ::
     (if success response
      then [EmitRequestComplete (requestId response) (duration response);
            Resolve (requestId response)]
      else [EmitRequestFailed (requestId response)
              (match error response with Some e => e | None => lit "Unknown" end);
            Reject (requestId response)])).

(** The settlements that end the caller's promise for [id]. *)
Definition settles (id : jsstring) (s : settlement) : bool :=
  match s with
  | Resolve k | Reject k | RejectTimedOut k => eqb k id
  | _ => false
  end.

End Pool.

(** ** Predicates the properties are stated with *)
Module Props.
Import JS.

(** [s'] is [s] with every code unit outside [allowed] replaced by an
    underscore. *)
Definition sanitized (allowed : N -> bool) (s s' : jsstring) : Prop :=
  Forall2 (fun c c' => c' = if allowed c then c else Sandbox.UNDERSCORE) s s'.

(** *** Router invariants *)

(** The number of ring nodes that carry worker id [w]. *)
Definition nodeCount (w : Router.WorkerId) (ring : list Router.HashRingNode) : nat :=
  List.length (filter (fun n => eqb (Router.workerId n) w) ring).

(** Every cached user maps to a registered worker. *)
Definition cacheRegistered (r : Router.StickyRouter) : Prop :=
  forall u w, In (u, w) (Router.routingCache r) -> In w (Router.workers r).

(** Ring and worker set agree: [virtualNodes] nodes per registered worker,
    no node of any other worker. *)
Definition ringMatchesWorkers (r : Router.StickyRouter) : Prop :=
  (forall w, In w (Router.workers r) ->
     nodeCount w (Router.ring r) = Router.virtualNodes r) /\
  (forall n, In n (Router.ring r) -> In (Router.workerId n) (Router.workers r)).

Definition consistent (r : Router.StickyRouter) : Prop :=
  cacheRegistered r /\ ringMatchesWorkers r.

(** The order the ring is sorted by. *)
Definition hash_le (a b : Router.HashRingNode) : Prop :=
  (Router.hash a <= Router.hash b)%Z.

(** The shape every router built through its operations has: the worker
    set and the cache keys without repetition, and the ring equal to the
    stable sort of the workers' nodes taken in insertion order. *)
Definition canonical (r : Router.StickyRouter) : Prop :=
  NoDup (Router.workers r) /\
  NoDup (map fst (Router.routingCache r)) /\
  Router.ring r =
    Router.sort (flat_map (fun w => Router.virtualNodesOf w (Router.virtualNodes r))
                   (Router.workers r)).

(** The operations that leave user [u] assigned to worker [w]: anything
    but removing [w], clearing [u] or the whole cache, and forcing [u]. *)
Definition keeps (u : Router.UserId) (w : Router.WorkerId) (o : Router.op) : bool :=
  match o with
  | Router.OpAddWorker _ => true
  | Router.OpRemoveWorker w' => negb (eqb w' w)
  | Router.OpRoute _ => true
  | Router.OpForceAssign u' _ => negb (eqb u' u)
  | Router.OpClearAssignment u' => negb (eqb u' u)
  | Router.OpClearCache => false
  end.

(** *** The distribution scenario *)

(** The ids [user-0] ... [user-(n-1)]. *)
Definition userIds (n : nat) : list Router.UserId :=
  map (fun i => lit "user-" ++ of_nat i) (seq 0 n).

(** The ids [worker-0] ... [worker-(n-1)] that [WorkerPool.start] registers. *)
Definition poolWorkerIds (n : nat) : list Router.WorkerId :=
  map (fun i => lit "worker-" ++ of_nat i) (seq 0 n).

(** [route] called on each user in turn, on the router as the calls
    before left it. *)
Fixpoint routeEach (r : Router.StickyRouter) (us : list Router.UserId)
  : list (result Router.RoutingDecision) :=
  match us with
  | [] => []
  | u :: us' => let (d, r') := Router.route r u in d :: routeEach r' us'
  end.

(** How many of the decisions name worker [w]. *)
Definition assigned (w : Router.WorkerId) (ds : list (result Router.RoutingDecision)) : nat :=
  List.length
    (filter (fun d => match d with
                      | Ok dec => eqb (Router.decisionWorkerId dec) w
                      | Throw _ => false
                      end) ds).

(** The users each of the workers [ws] receives when [us] are routed in
    turn. *)
Definition assignmentCounts (r : Router.StickyRouter) (us : list Router.UserId)
  (ws : list Router.WorkerId) : list nat :=
  let ds := routeEach r us in
  map (fun w => assigned w ds) ws.

End Props.

(* ================================================================== *)
(** * Part II: properties                                              *)
(* ================================================================== *)

(** ** Strings *)
Section StringFacts.
Import JS.

Lemma eqb_eq (a b : jsstring) : eqb a b = true <-> a = b.
Proof.
  revert b; induction a as [|x a IH]; intros [|y b]; simpl; split; intro H;
    try reflexivity; try discriminate.
  - apply andb_true_iff in H as [Hx Hab].
    apply N.eqb_eq in Hx. apply IH in Hab. now subst.
  - injection H as -> ->. rewrite N.eqb_refl. now apply IH.
Qed.

Lemma eqb_refl (a : jsstring) : eqb a a = true.
Proof. now apply eqb_eq. Qed.

Lemma eqb_neq (a b : jsstring) : eqb a b = false <-> a <> b.
Proof.
  split.
  - intros H E. apply eqb_eq in E. congruence.
  - intro H. destruct (eqb a b) eqn:E; [apply eqb_eq in E; contradiction | reflexivity].
Qed.

Lemma eqb_sym (a b : jsstring) : eqb a b = eqb b a.
Proof.
  destruct (eqb b a) eqn:E.
  - apply eqb_eq in E. subst. apply eqb_refl.
  - apply eqb_neq in E. apply eqb_neq. congruence.
Qed.

End StringFacts.

(** ** The hash function *)
Section HashFacts.
Import JS Hash.
Local Open Scope Z_scope.










End HashFacts.

(** ** Sandbox paths *)
Section PathFacts.
Import JS Path Sandbox Props.

Lemma split_no_slash (s : jsstring) : ~ In SLASH s -> split s = [s].
Proof.
  induction s as [|c s IH]; intro H; simpl; [reflexivity|].
  destruct (N.eqb_spec c SLASH) as [->|Hc].
  - exfalso. apply H. now left.
  - rewrite IH; [reflexivity|]. intro Hin. apply H. now right.
Qed.

Lemma replace_outside_no_slash (allowed : N -> bool) (s : jsstring) :
  allowed SLASH = false -> ~ In SLASH (replace_outside allowed s).
Proof.
  intros Ha Hin. unfold replace_outside in Hin.
  apply in_map_iff in Hin as [c [Hc _]].
  destruct (allowed c) eqn:E.
  - subst c. congruence.
  - discriminate.
Qed.

Lemma replace_outside_sanitized (allowed : N -> bool) (s : jsstring) :
  sanitized allowed s (replace_outside allowed s).
Proof.
  unfold sanitized. induction s as [|c s IH]; simpl; constructor; auto.
Qed.

Lemma join_one_segment (p : path) (name : jsstring) :
  ~ In SLASH name ->
  segments (join p name) = push_segment (negb (absolute p)) (segments p) name.
Proof.
  intro H. unfold join, normalizeString. simpl. now rewrite split_no_slash.
Qed.

Lemma last_segment_snoc (stack : list jsstring) (x : jsstring) :
  last_segment (stack ++ [x]) = Some x.
Proof.
  induction stack as [|y stack IH]; [reflexivity|].
  simpl. rewrite IH. destruct (stack ++ [x]) eqn:E; [|reflexivity].
  destruct stack; discriminate.
Qed.

Lemma push_plain_segment (allow : bool) (stack : list jsstring) (seg : jsstring) :
  seg <> [] -> seg <> [DOT] -> seg <> [DOT; DOT] ->
  push_segment allow stack seg = stack ++ [seg].
Proof.
  intros H0 H1 H2. unfold push_segment.
  apply eqb_neq in H0, H1, H2. now rewrite H0, H1, H2.
Qed.

(** A name with an extension appended is never empty, ["."] or [".."]. *)
Lemma push_with_extension (allow : bool) (stack : list jsstring) (s ext : jsstring) :
  (3 <= List.length ext)%nat ->
  push_segment allow stack (s ++ ext) = stack ++ [s ++ ext].
Proof.
  intro H. apply push_plain_segment; intro E; apply (f_equal (@List.length N)) in E;
    rewrite length_app in E; simpl in E; lia.
Qed.

(** What a bare sanitised name does under a subdirectory of the root. *)
Lemma push_under_subdir (allow : bool) (rootSegs : list jsstring) (dir seg : jsstring) :
  dir <> [DOT; DOT] ->
  push_segment allow (rootSegs ++ [dir]) seg =
    if eqb seg [] || eqb seg [DOT] then rootSegs ++ [dir]
    else if eqb seg [DOT; DOT] then rootSegs
    else rootSegs ++ [dir; seg].
Proof.
  intro Hd. unfold push_segment.
  destruct (eqb seg [] || eqb seg [DOT]); [reflexivity|].
  destruct (eqb seg [DOT; DOT]).
  - rewrite last_segment_snoc. apply eqb_neq in Hd. rewrite Hd.
    apply removelast_last.
  - now rewrite <- app_assoc.
Qed.

Lemma under_extend (rootp p : path) (rest : list jsstring) :
  absolute p = absolute rootp ->
  segments p = segments rootp ++ rest ->
  ~ In [DOT; DOT] rest ->
  under rootp p.
Proof. intros Ha Hs Hr. split; [assumption|]. now exists rest. Qed.

Lemma ext_not_dotdot (s ext : jsstring) :
  (3 <= List.length ext)%nat -> s ++ ext <> [DOT; DOT].
Proof.
  intros H E. apply (f_equal (@List.length N)) in E.
  rewrite length_app in E. simpl in E. lia.
Qed.

Lemma path_ext (p q : path) :
  absolute p = absolute q -> segments p = segments q -> p = q.
Proof. destruct p, q; simpl; intros; subst; reflexivity. Qed.

Lemma strictly_under_one (dir p : path) (seg : jsstring) :
  absolute p = absolute dir ->
  segments p = segments dir ++ [seg] ->
  seg <> [DOT; DOT] ->
  strictly_under dir p.
Proof.
  intros Ha Hs Hd. split; [exact Ha|].
  exists [seg]. split; [discriminate|]. split; [exact Hs|].
  intros [H|[]]. congruence.
Qed.

(** A path that is shorter than a directory's is not inside it. *)
Lemma not_under_shorter (dir p : path) (extra : list jsstring) :
  segments dir = segments p ++ extra -> extra <> [] -> ~ under dir p.
Proof.
  intros Hd He [_ [rest [Hs _]]]. rewrite Hd in Hs.
  apply (f_equal (@List.length jsstring)) in Hs.
  rewrite !length_app in Hs.
  destruct extra; [congruence|]. simpl in Hs. lia.
Qed.

Lemma not_strictly_under_itself (p q : path) :
  segments q = segments p -> ~ strictly_under p q.
Proof.
  intros E [_ [rest [Hne [Hs _]]]]. rewrite E in Hs.
  apply (f_equal (@List.length jsstring)) in Hs.
  rewrite length_app in Hs.
  destruct rest; [congruence|]. simpl in Hs. lia.
Qed.

(** X20: every path helper replaces each code unit outside its allowlist
    ([A-Za-z0-9_-] for session ids, [A-Za-z0-9._-] for the others) by an
    underscore and joins the result to its subdirectory.  Whatever the
    name, a session, state or log path is exactly one segment below its
    own directory.  A temp or cache path is one segment below its
    directory, except for the names that sanitise to the empty string or
    ["."] (the directory itself) and to [".."] (the sandbox root itself);
    so all five are the sandbox root or below it. *)
Theorem path_helpers_stay_under_root (wid baseDir name : jsstring) :
  let sb := Sandbox.new wid baseDir in
  let safeId := replace_outside id_char name in
  let safeName := replace_outside name_char name in
  let rootSegs := segments (root (paths sb)) in
  (sanitized id_char name safeId /\ sanitized name_char name safeName) /\
  (segments (getSessionPath sb name) = rootSegs ++ [lit "sessions"; safeId ++ lit ".json"] /\
   segments (getStatePath sb name) = rootSegs ++ [lit "state"; safeName ++ lit ".json"] /\
   segments (getLogPath sb name) = rootSegs ++ [lit "logs"; safeName ++ lit ".log"] /\
   segments (getTempPath sb name) =
     (if eqb safeName [] || eqb safeName [DOT] then rootSegs ++ [lit "temp"]
      else if eqb safeName [DOT; DOT] then rootSegs
      else rootSegs ++ [lit "temp"; safeName]) /\
   segments (getCachePath sb name) =
     (if eqb safeName [] || eqb safeName [DOT] then rootSegs ++ [lit "cache"]
      else if eqb safeName [DOT; DOT] then rootSegs
      else rootSegs ++ [lit "cache"; safeName])) /\
  (under (root (paths sb)) (getSessionPath sb name) /\
   under (root (paths sb)) (getTempPath sb name) /\
   under (root (paths sb)) (getCachePath sb name) /\
   under (root (paths sb)) (getStatePath sb name) /\
   under (root (paths sb)) (getLogPath sb name)) /\
  (strictly_under (sessions (paths sb)) (getSessionPath sb name) /\
   strictly_under (state (paths sb)) (getStatePath sb name) /\
   strictly_under (logs (paths sb)) (getLogPath sb name)).
Proof.
  intros sb safeId safeName rootSegs.
  assert (HsafeId : ~ In SLASH safeId) by (apply replace_outside_no_slash; reflexivity).
  assert (HsafeName : ~ In SLASH safeName) by (apply replace_outside_no_slash; reflexivity).
  assert (Hext : forall s e, ~ In SLASH s -> ~ In SLASH e -> ~ In SLASH (s ++ e)).
  { intros s e Hs He Hin. apply in_app_or in Hin. tauto. }
  assert (Hjson : ~ In SLASH (lit ".json")).
  { vm_compute. intros H. repeat (destruct H as [H|H]; [discriminate|]). exact H. }
  assert (Hlog : ~ In SLASH (lit ".log")).
  { vm_compute. intros H. repeat (destruct H as [H|H]; [discriminate|]). exact H. }
  assert (Esess : segments (getSessionPath sb name)
                  = rootSegs ++ [lit "sessions"; safeId ++ lit ".json"]).
  { unfold getSessionPath. rewrite join_one_segment by (apply Hext; assumption).
    change (segments (sessions (paths sb))) with (rootSegs ++ [lit "sessions"]).
    rewrite push_with_extension by (simpl; lia). now rewrite <- app_assoc. }
  assert (Estate : segments (getStatePath sb name)
                   = rootSegs ++ [lit "state"; safeName ++ lit ".json"]).
  { unfold getStatePath. rewrite join_one_segment by (apply Hext; assumption).
    change (segments (state (paths sb))) with (rootSegs ++ [lit "state"]).
    rewrite push_with_extension by (simpl; lia). now rewrite <- app_assoc. }
  assert (Elog : segments (getLogPath sb name)
                 = rootSegs ++ [lit "logs"; safeName ++ lit ".log"]).
  { unfold getLogPath. rewrite join_one_segment by (apply Hext; assumption).
    change (segments (logs (paths sb))) with (rootSegs ++ [lit "logs"]).
    rewrite push_with_extension by (simpl; lia). now rewrite <- app_assoc. }
  assert (Etemp : segments (getTempPath sb name) =
     (if eqb safeName [] || eqb safeName [DOT] then rootSegs ++ [lit "temp"]
      else if eqb safeName [DOT; DOT] then rootSegs
      else rootSegs ++ [lit "temp"; safeName])).
  { unfold getTempPath. rewrite join_one_segment by assumption.
    change (segments (temp (paths sb))) with (rootSegs ++ [lit "temp"]).
    apply push_under_subdir. discriminate. }
  assert (Ecache : segments (getCachePath sb name) =
     (if eqb safeName [] || eqb safeName [DOT] then rootSegs ++ [lit "cache"]
      else if eqb safeName [DOT; DOT] then rootSegs
      else rootSegs ++ [lit "cache"; safeName])).
  { unfold getCachePath. rewrite join_one_segment by assumption.
    change (segments (cache (paths sb))) with (rootSegs ++ [lit "cache"]).
    apply push_under_subdir. discriminate. }
  assert (Hsub : forall dir, dir <> [DOT; DOT] ->
     exists rest,
       (if eqb safeName [] || eqb safeName [DOT] then rootSegs ++ [dir]
        else if eqb safeName [DOT; DOT] then rootSegs
        else rootSegs ++ [dir; safeName]) = rootSegs ++ rest /\ ~ In [DOT; DOT] rest).
  { intros dir Hd.
    destruct (eqb safeName [] || eqb safeName [DOT]).
    - exists [dir]. split; [reflexivity|]. intros [H|[]]. congruence.
    - destruct (eqb safeName [DOT; DOT]) eqn:E.
      + exists []. split; [now rewrite app_nil_r | intros []].
      + apply eqb_neq in E. exists [dir; safeName]. split; [reflexivity|].
        intros [H|[H|[]]]; congruence. }
  split; [split; apply replace_outside_sanitized|].
  split; [repeat split; assumption|].
  split.
  { repeat split; try reflexivity.
    - exists [lit "sessions"; safeId ++ lit ".json"]. split; [exact Esess|].
      intros [H|[H|[]]]; [discriminate|]. revert H.
      apply ext_not_dotdot. simpl; lia.
    - rewrite Etemp. apply Hsub. discriminate.
    - rewrite Ecache. apply Hsub. discriminate.
    - exists [lit "state"; safeName ++ lit ".json"]. split; [exact Estate|].
      intros [H|[H|[]]]; [discriminate|]. revert H.
      apply ext_not_dotdot. simpl; lia.
    - exists [lit "logs"; safeName ++ lit ".log"]. split; [exact Elog|].
      intros [H|[H|[]]]; [discriminate|]. revert H.
      apply ext_not_dotdot. simpl; lia. }
  split; [|split].
  - apply (strictly_under_one _ _ (safeId ++ lit ".json"));
      [reflexivity| |apply ext_not_dotdot; simpl; lia].
    rewrite Esess.
    change (segments (sessions (paths sb))) with (rootSegs ++ [lit "sessions"]).
    now rewrite <- app_assoc.
  - apply (strictly_under_one _ _ (safeName ++ lit ".json"));
      [reflexivity| |apply ext_not_dotdot; simpl; lia].
    rewrite Estate.
    change (segments (state (paths sb))) with (rootSegs ++ [lit "state"]).
    now rewrite <- app_assoc.
  - apply (strictly_under_one _ _ (safeName ++ lit ".log"));
      [reflexivity| |apply ext_not_dotdot; simpl; lia].
    rewrite Elog.
    change (segments (logs (paths sb))) with (rootSegs ++ [lit "logs"]).
    now rewrite <- app_assoc.
Qed.

(** C7, on the code: the allowlist of the temp and cache helpers lets the
    name [".."] through unchanged, and [join] resolves it against the
    subdirectory.  In every sandbox [getTempPath("..")] and
    [getCachePath("..")] are the sandbox root itself: the path has left
    [temp/] and [cache/] and is not a location below the root.  The
    session, state and log helpers, given the same name, stay one segment
    below their directories: the session allowlist has no dot, and the
    other two append an extension before joining. *)
Theorem temp_and_cache_paths_leave_their_directory (wid baseDir : jsstring) :
  let sb := Sandbox.new wid baseDir in
  let rootSegs := segments (root (paths sb)) in
  replace_outside name_char (lit "..") = lit ".." /\
  (getTempPath sb (lit "..") = root (paths sb) /\
   getCachePath sb (lit "..") = root (paths sb)) /\
  (~ under (temp (paths sb)) (getTempPath sb (lit "..")) /\
   ~ under (cache (paths sb)) (getCachePath sb (lit "..")) /\
   ~ strictly_under (root (paths sb)) (getTempPath sb (lit "..")) /\
   ~ strictly_under (root (paths sb)) (getCachePath sb (lit ".."))) /\
  (segments (getSessionPath sb (lit "..")) = rootSegs ++ [lit "sessions"; lit "__.json"] /\
   segments (getStatePath sb (lit "..")) = rootSegs ++ [lit "state"; lit "...json"] /\
   segments (getLogPath sb (lit "..")) = rootSegs ++ [lit "logs"; lit "...log"]) /\
  render (getTempPath (Sandbox.new (lit "worker-0") (lit "/tmp/moltbot-workers")) (lit ".."))
    = lit "/tmp/moltbot-workers/worker-0".
Proof.
  intros sb rootSegs.
  assert (Hsafe : replace_outside name_char (lit "..") = lit "..") by reflexivity.
  assert (Hno : ~ In SLASH (lit "..")).
  { intros [H|[H|[]]]; discriminate. }
  assert (Etemp : getTempPath sb (lit "..") = root (paths sb)).
  { apply path_ext; [reflexivity|].
    unfold getTempPath. rewrite Hsafe, join_one_segment by exact Hno.
    change (segments (temp (paths sb))) with (rootSegs ++ [lit "temp"]).
    rewrite push_under_subdir by discriminate. reflexivity. }
  assert (Ecache : getCachePath sb (lit "..") = root (paths sb)).
  { apply path_ext; [reflexivity|].
    unfold getCachePath. rewrite Hsafe, join_one_segment by exact Hno.
    change (segments (cache (paths sb))) with (rootSegs ++ [lit "cache"]).
    rewrite push_under_subdir by discriminate. reflexivity. }
  split; [exact Hsafe|].
  split; [split; assumption|].
  split.
  { rewrite Etemp, Ecache.
    split; [apply (not_under_shorter _ _ [lit "temp"]); [reflexivity|discriminate]|].
    split; [apply (not_under_shorter _ _ [lit "cache"]); [reflexivity|discriminate]|].
    split; now apply not_strictly_under_itself. }
  split; [|reflexivity].
  split; [|split].
  - unfold getSessionPath.
    change (replace_outside id_char (lit "..") ++ lit ".json") with (lit "__" ++ lit ".json").
    rewrite join_one_segment.
    + change (segments (sessions (paths sb))) with (rootSegs ++ [lit "sessions"]).
      rewrite push_with_extension by (simpl; lia). now rewrite <- app_assoc.
    + vm_compute. intros H. repeat (destruct H as [H|H]; [discriminate|]). exact H.
  - unfold getStatePath. rewrite Hsafe.
    rewrite join_one_segment.
    + change (segments (state (paths sb))) with (rootSegs ++ [lit "state"]).
      rewrite push_with_extension by (simpl; lia). now rewrite <- app_assoc.
    + vm_compute. intros H. repeat (destruct H as [H|H]; [discriminate|]). exact H.
  - unfold getLogPath. rewrite Hsafe.
    rewrite join_one_segment.
    + change (segments (logs (paths sb))) with (rootSegs ++ [lit "logs"]).
      rewrite push_with_extension by (simpl; lia). now rewrite <- app_assoc.
    + vm_compute. intros H. repeat (destruct H as [H|H]; [discriminate|]). exact H.
Qed.

(** Scenario E: the traversal attempt of the test suite. *)
Example getSessionPath_traversal :
  render (getSessionPath (Sandbox.new (lit "test-worker") (lit "/tmp/base"))
            (lit "../../../etc/passwd"))
  = lit "/tmp/base/test-worker/sessions/_________etc_passwd.json".
Proof. reflexivity. Qed.

(** C10: sanitisation loses information: the session ids ["a/b"] and
    ["a_b"] are distinct and [getSessionPath] sends both to one path, in
    every sandbox. *)
Theorem getSessionPath_not_injective :
  lit "a/b" <> lit "a_b" /\
  forall sb : WorkerSandbox,
    getSessionPath sb (lit "a/b") = getSessionPath sb (lit "a_b").
Proof.
  split; [discriminate|]. intro sb. reflexivity.
Qed.

End PathFacts.

(** ** Instance keys *)
Section KeyFacts.
Import JS Path Sandbox.

Lemma path_eqb_eq (p q : path) : path_eqb p q = true <-> p = q.
Proof.
  destruct p as [pa ps], q as [qa qs]. unfold path_eqb. simpl.
  rewrite andb_true_iff, Bool.eqb_true_iff.
  assert (Hgo : forall a b,
    (fix go (a b : list jsstring) : bool :=
       match a, b with
       | [], [] => true
       | x :: a', y :: b' => eqb x y && go a' b'
       | _, _ => false
       end) a b = true <-> a = b).
  { induction a as [|x a IH]; intros [|y b]; split; intro H;
      try reflexivity; try discriminate.
    - apply andb_true_iff in H as [Hx Hab]. apply eqb_eq in Hx. apply IH in Hab.
      now subst.
    - injection H as -> ->. apply andb_true_iff. split; [apply eqb_refl | now apply IH]. }
  rewrite Hgo. split.
  - intros [-> ->]. reflexivity.
  - intro H. injection H as -> ->. split; reflexivity.
Qed.

Lemma lookup_update_same {A : Type} (l : list (path * A)) (p : path) (a : A) :
  lookup (update l p a) p = Some a.
Proof.
  induction l as [|[q b] l IH]; simpl.
  - replace (path_eqb p p) with true; [reflexivity|].
    symmetry. now apply path_eqb_eq.
  - destruct (path_eqb q p) eqn:E; simpl; rewrite E; [reflexivity | exact IH].
Qed.

Lemma lookup_update_other {A : Type} (l : list (path * A)) (p q : path) (a : A) :
  p <> q -> lookup (update l p a) q = lookup l q.
Proof.
  intro Hpq. induction l as [|[r b] l IH]; simpl.
  - destruct (path_eqb p q) eqn:E; [apply path_eqb_eq in E; contradiction | reflexivity].
  - destruct (path_eqb r p) eqn:E; simpl.
    + apply path_eqb_eq in E. subst r.
      destruct (path_eqb p q) eqn:E'; [apply path_eqb_eq in E'; contradiction | reflexivity].
    + destruct (path_eqb r q); [reflexivity | exact IH].
Qed.

Lemma keyPath_neq_idPath (sb : WorkerSandbox) : keyPath sb <> idPath sb.
Proof.
  intro E. apply (f_equal segments) in E.
  change (segments (keys (paths sb)) ++ [lit "instance.key"]
          = segments (keys (paths sb)) ++ [lit "instance.id"]) in E.
  apply app_inv_head in E. discriminate.
Qed.

(** *** Hexadecimal round trip *)

Lemma fromHex_toHex_cons (b : Byte.byte) (rest : jsstring) :
  fromHex (toHex [b] ++ rest) = b :: fromHex rest.
Proof. destruct b; reflexivity. Qed.

Lemma toHex_cons (b : Byte.byte) (bs : list Byte.byte) :
  toHex (b :: bs) = toHex [b] ++ toHex bs.
Proof. unfold toHex. simpl. reflexivity. Qed.

Lemma toHex_app (a b : list Byte.byte) : toHex (a ++ b) = toHex a ++ toHex b.
Proof. unfold toHex. apply flat_map_app. Qed.

Lemma fromHex_toHex (bs : list Byte.byte) : fromHex (toHex bs) = bs.
Proof.
  induction bs as [|b bs IH]; [reflexivity|].
  rewrite toHex_cons, fromHex_toHex_cons, IH. reflexivity.
Qed.

Lemma toHex_head (b : Byte.byte) :
  exists c rest, toHex [b] = c :: rest /\ is_whitespace c = false.
Proof. destruct b; eexists; eexists; split; reflexivity. Qed.

Lemma toHex_last (b : Byte.byte) :
  exists front c, toHex [b] = front ++ [c] /\ is_whitespace c = false.
Proof.
  exists [hex_digit (Byte.to_N b / 16)], (hex_digit (Byte.to_N b mod 16)).
  split; [reflexivity|]. destruct b; reflexivity.
Qed.

Lemma trimStart_head (c : N) (s : jsstring) :
  is_whitespace c = false -> trimStart (c :: s) = c :: s.
Proof. intro H. simpl. now rewrite H. Qed.

Lemma trim_fixed (s : jsstring) :
  trimStart s = s -> trimStart (rev s) = rev s -> trim s = s.
Proof. intros H1 H2. unfold trim. rewrite H1, H2. apply rev_involutive. Qed.

Lemma trimStart_rev_snoc (s : jsstring) (c : N) :
  is_whitespace c = false -> trimStart (rev (s ++ [c])) = rev (s ++ [c]).
Proof. intro H. rewrite rev_app_distr. simpl. now rewrite H. Qed.

Lemma toHex_ends (bs : list Byte.byte) :
  bs <> [] -> exists front c, toHex bs = front ++ [c] /\ is_whitespace c = false.
Proof.
  intro Hne. destruct (exists_last Hne) as [bs' [b ->]].
  destruct (toHex_last b) as [front [c [E Hc]]].
  exists (toHex bs' ++ front), c. split; [|exact Hc].
  rewrite toHex_app, E. now rewrite app_assoc.
Qed.

Lemma trim_toHex (bs : list Byte.byte) : trim (toHex bs) = toHex bs.
Proof.
  destruct bs as [|b bs]; [reflexivity|].
  apply trim_fixed.
  - rewrite toHex_cons. destruct (toHex_head b) as [c [rest [E Hc]]].
    rewrite E. simpl. now rewrite Hc.
  - destruct (@toHex_ends (b :: bs)) as [front [c [E Hc]]]; [discriminate|].
    rewrite E. now apply trimStart_rev_snoc.
Qed.

(** *** The two branches of [getOrCreateInstanceKeys] *)

Lemma getOrCreate_reads_existing (sb : WorkerSandbox) (w : World) (kh idc : jsstring) :
  readFile w (keyPath sb) = Some kh ->
  readFile w (idPath sb) = Some idc ->
  getOrCreateInstanceKeys sb w =
    (mkKeys (fromHex (trim kh)) (trim idc) (toHex (firstn 8 (fromHex (trim kh)))), w).
Proof.
  intros Hk Hi. unfold getOrCreateInstanceKeys. now rewrite Hk, Hi.
Qed.

Lemma getOrCreate_generates (sb : WorkerSandbox) (w : World) :
  readFile w (keyPath sb) = None \/ readFile w (idPath sb) = None ->
  getOrCreateInstanceKeys sb w = generateInstanceKeys sb w.
Proof.
  intros H. unfold getOrCreateInstanceKeys.
  destruct (readFile w (keyPath sb)), (readFile w (idPath sb)); try reflexivity.
  destruct H; discriminate.
Qed.

Lemma generate_writes (sb : WorkerSandbox) (w : World) :
  let keys := fst (generateInstanceKeys sb w) in
  let w' := snd (generateInstanceKeys sb w) in
  privateKey keys = map (random w) (seq (drawn w) 32) /\
  fingerprint keys = toHex (firstn 8 (privateKey keys)) /\
  readFile w' (keyPath sb) = Some (toHex (privateKey keys)) /\
  readFile w' (idPath sb) = Some (instanceId keys) /\
  metadataFiles w' = metadataFiles w.
Proof.
  unfold generateInstanceKeys, randomBytes, readFile, writeFile. cbn [fst snd files metadataFiles
    privateKey fingerprint instanceId now random drawn].
  repeat split.
  - rewrite lookup_update_other by (apply not_eq_sym, keyPath_neq_idPath).
    apply lookup_update_same.
  - apply lookup_update_same.
Qed.

Lemma trimStart_length (s : jsstring) : (List.length (trimStart s) <= List.length s)%nat.
Proof.
  induction s as [|c s IH]; simpl; [lia|].
  destruct (is_whitespace c); simpl; lia.
Qed.

Lemma trimStart_fixed_head (c : N) (s : jsstring) :
  trimStart (c :: s) = c :: s -> is_whitespace c = false.
Proof.
  simpl. destruct (is_whitespace c); [|reflexivity].
  intro E. apply (f_equal (@List.length N)) in E. simpl in E.
  pose proof (trimStart_length s). lia.
Qed.

Lemma trim_instanceId (wid stamp : jsstring) (suffix : list Byte.byte) :
  suffix <> [] -> trimStart wid = wid ->
  trim (wid ++ lit "-" ++ stamp ++ lit "-" ++ toHex suffix)
  = wid ++ lit "-" ++ stamp ++ lit "-" ++ toHex suffix.
Proof.
  intros Hs Hw. apply trim_fixed.
  - destruct wid as [|c wid'].
    + reflexivity.
    + apply trimStart_fixed_head in Hw. simpl. now rewrite Hw.
  - destruct (toHex_ends suffix Hs) as [front [c [E Hc]]]. rewrite E.
    rewrite !app_assoc. now apply trimStart_rev_snoc.
Qed.

(** C8 (as amended): a first initialisation, one that finds [instance.key]
    or [instance.id] missing, generates a 32-byte key and an id and
    writes both; an initialisation by a new sandbox object that finds
    both files as written reads them back and generates nothing: it
    returns the same key, the stored id with surrounding whitespace
    trimmed (the same id when the worker id does not start with
    whitespace), and the files are left as they were.  In both cases the
    fingerprint is the hexadecimal text of the first 8 bytes of the
    private key. *)
Theorem instance_keys_generated_once_then_reused (wid baseDir : jsstring) (w : World) :
  let sb := Sandbox.new wid baseDir in
  readFile w (keyPath sb) = None \/ readFile w (idPath sb) = None ->
  exists keys1 sb1 w1,
    initialize sb w = (Some keys1, sb1, w1) /\
    privateKey keys1 = map (random w) (seq (drawn w) 32) /\
    List.length (privateKey keys1) = 32 /\
    fingerprint keys1 = toHex (firstn 8 (privateKey keys1)) /\
    readFile w1 (keyPath sb) = Some (toHex (privateKey keys1)) /\
    readFile w1 (idPath sb) = Some (instanceId keys1) /\
    forall w',
      readFile w' (keyPath sb) = Some (toHex (privateKey keys1)) ->
      readFile w' (idPath sb) = Some (instanceId keys1) ->
      exists keys2 sb2 w2,
        initialize sb w' = (Some keys2, sb2, w2) /\
        privateKey keys2 = privateKey keys1 /\
        instanceId keys2 = trim (instanceId keys1) /\
        (trimStart wid = wid -> instanceId keys2 = instanceId keys1) /\
        fingerprint keys2 = fingerprint keys1 /\
        fingerprint keys2 = toHex (firstn 8 (privateKey keys2)) /\
        files w2 = files w' /\ drawn w2 = drawn w'.
Proof.
  intros sb Hmissing.
  pose proof (getOrCreate_generates sb w Hmissing) as Hgen.
  pose proof (generate_writes sb w) as Hw. cbv zeta in Hw.
  destruct (generateInstanceKeys sb w) as [keys1 wg] eqn:Eg. cbn [fst snd] in Hw.
  destruct Hw as (Hpk & Hfp & Hkey & Hid & Hmeta).
  eexists keys1, _, _. split.
  { unfold initialize. change (initialized sb) with false. cbv iota.
    rewrite Hgen. reflexivity. }
  split; [exact Hpk|].
  split; [rewrite Hpk, length_map, length_seq; reflexivity|].
  split; [exact Hfp|].
  split; [exact Hkey|].
  split; [exact Hid|].
  intros w' Hk' Hi'.
  pose proof (getOrCreate_reads_existing sb w' _ _ Hk' Hi') as Hread.
  rewrite trim_toHex, fromHex_toHex in Hread.
  eexists _, _, _. split.
  { unfold initialize. change (initialized sb) with false. cbv iota.
    rewrite Hread. reflexivity. }
  cbn [privateKey instanceId fingerprint].
  split; [reflexivity|].
  split; [reflexivity|].
  split.
  { intro Hwid.
    assert (Hid1 : instanceId keys1 =
              wid ++ lit "-" ++ of_Z (now w) ++ lit "-"
                  ++ toHex (map (random w) (seq (drawn w + 32) 4))).
    { unfold generateInstanceKeys, randomBytes in Eg. injection Eg as <- _. reflexivity. }
    rewrite Hid1. apply trim_instanceId; [simpl; discriminate | exact Hwid]. }
  split; [now rewrite Hfp|].
  repeat split.
Qed.

Lemma instance_keys_witness :
  exists keys1 sb1 w1,
    initialize (Sandbox.new (lit "worker-0") (lit "/tmp/moltbot-workers")) emptyWorld
      = (Some keys1, sb1, w1) /\
    List.length (privateKey keys1) = 32.
Proof.
  destruct (instance_keys_generated_once_then_reused
              (lit "worker-0") (lit "/tmp/moltbot-workers") emptyWorld)
    as (keys1 & sb1 & w1 & Hinit & _ & Hlen & _).
  - left. reflexivity.
  - exists keys1, sb1, w1. split; assumption.
Defined.

(** C8, as stated, fails when [instance.key] exists and [instance.id]
    does not: the read of the id rejects, both are generated anew and the
    stored key is overwritten. *)
Lemma key_file_alone_is_not_reused :
  let sb := Sandbox.new (lit "worker-0") (lit "/tmp/moltbot-workers") in
  let stored := repeat Byte.x2a 32 in
  let w := {| files := [(keyPath sb, toHex stored)]; metadataFiles := [];
              now := 1700000000000%Z; random := fun _ => Byte.x07; drawn := 0 |} in
  readFile w (keyPath sb) = Some (toHex stored) /\
  privateKey (fst (getOrCreateInstanceKeys sb w)) = repeat Byte.x07 32 /\
  privateKey (fst (getOrCreateInstanceKeys sb w)) <> stored /\
  readFile (snd (getOrCreateInstanceKeys sb w)) (keyPath sb) = Some (toHex (repeat Byte.x07 32)) /\
  (exists keys sb' w', initialize sb w = (Some keys, sb', w') /\ privateKey keys <> stored).
Proof.
  cbv zeta. split; [reflexivity|]. split; [reflexivity|].
  split; [vm_compute; discriminate|]. split; [reflexivity|].
  eexists _, _, _. split; [reflexivity|]. vm_compute. discriminate.
Qed.

End KeyFacts.

(** ** Restart bookkeeping *)
Section PoolFacts.
Import JS Pool.
Local Open Scope Z_scope.

Lemma get_set_same (m : list (WorkerId * WorkerInstance)) (w : WorkerId) (v : WorkerInstance) :
  get (set m w v) w = Some v.
Proof.
  induction m as [|[k v'] m IH]; simpl.
  - now rewrite eqb_refl.
  - destruct (eqb k w) eqn:E; simpl; rewrite E; [reflexivity | exact IH].
Qed.

Lemma filter_in_window (window now : Z) (ts : list Z) :
  Forall (fun t => now - t < window) ts ->
  filter (fun t => now - t <? window) ts = ts.
Proof.
  induction 1 as [|t ts Ht _ IH]; simpl; [reflexivity|].
  apply Z.ltb_lt in Ht. now rewrite Ht, IH.
Qed.

Lemma exitRecord_restart (cfg : WorkerPoolConfig) (worker : WorkerInstance) (now : Z) :
  Forall (fun t => now - t < restartWindow cfg) (restartTimes worker) ->
  Z.of_nat (List.length (restartTimes worker)) < maxRestartAttempts cfg ->
  restartTimes (fst (exitRecord cfg worker now)) = restartTimes worker ++ [now] /\
  state (fst (exitRecord cfg worker now)) = Stopped.
Proof.
  intros Hw Hn. unfold exitRecord. rewrite filter_in_window by assumption.
  replace (Z.of_nat (List.length (restartTimes worker)) >=? maxRestartAttempts cfg)
    with false by (symmetry; rewrite Z.geb_leb; apply Z.leb_gt; lia).
  split; reflexivity.
Qed.

Lemma exitRecord_latch (cfg : WorkerPoolConfig) (worker : WorkerInstance) (now : Z) :
  Forall (fun t => now - t < restartWindow cfg) (restartTimes worker) ->
  maxRestartAttempts cfg <= Z.of_nat (List.length (restartTimes worker)) ->
  state (fst (exitRecord cfg worker now)) = Crashed.
Proof.
  intros Hw Hn. unfold exitRecord. rewrite filter_in_window by assumption.
  replace (Z.of_nat (List.length (restartTimes worker)) >=? maxRestartAttempts cfg)
    with true by (symmetry; rewrite Z.geb_leb; apply Z.leb_le; lia).
  reflexivity.
Qed.

(** The exit handler applied to one and the same record latches: five
    exits inside the window are followed by restarts, the sixth is not. *)
Lemma exits_on_one_record_latch (worker : WorkerInstance) (t1 t2 t3 t4 t5 t6 : Z) :
  restartTimes worker = [] ->
  t1 <= t2 <= t3 /\ t3 <= t4 <= t5 /\ t5 <= t6 ->
  t6 - t1 < 60000 ->
  state (exitsOnOneRecord DEFAULT_WORKER_POOL_CONFIG worker [t1; t2; t3; t4; t5]) = Stopped /\
  state (exitsOnOneRecord DEFAULT_WORKER_POOL_CONFIG worker [t1; t2; t3; t4; t5; t6]) = Crashed.
Proof.
  intros Hfresh Hord Hwin.
  unfold exitsOnOneRecord. cbn [fold_left].
  set (cfg := DEFAULT_WORKER_POOL_CONFIG).
  assert (Hwindow : restartWindow cfg = 60000) by reflexivity.
  assert (Hmax : maxRestartAttempts cfg = 5) by reflexivity.
  destruct (exitRecord_restart cfg worker t1) as [E1 _].
  { rewrite Hfresh. constructor. }
  { rewrite Hfresh, Hmax. simpl. lia. }
  rewrite Hfresh in E1. cbn [app] in E1.
  set (w1 := fst (exitRecord cfg worker t1)) in *.
  destruct (exitRecord_restart cfg w1 t2) as [E2 _].
  { rewrite E1, Hwindow. repeat constructor; lia. }
  { rewrite E1, Hmax. simpl. lia. }
  rewrite E1 in E2. cbn [app] in E2.
  set (w2 := fst (exitRecord cfg w1 t2)) in *.
  destruct (exitRecord_restart cfg w2 t3) as [E3 _].
  { rewrite E2, Hwindow. repeat constructor; lia. }
  { rewrite E2, Hmax. simpl. lia. }
  rewrite E2 in E3. cbn [app] in E3.
  set (w3 := fst (exitRecord cfg w2 t3)) in *.
  destruct (exitRecord_restart cfg w3 t4) as [E4 _].
  { rewrite E3, Hwindow. repeat constructor; lia. }
  { rewrite E3, Hmax. simpl. lia. }
  rewrite E3 in E4. cbn [app] in E4.
  set (w4 := fst (exitRecord cfg w3 t4)) in *.
  destruct (exitRecord_restart cfg w4 t5) as [E5 S5].
  { rewrite E4, Hwindow. repeat constructor; lia. }
  { rewrite E4, Hmax. simpl. lia. }
  rewrite E4 in E5. cbn [app] in E5.
  split; [exact S5|].
  apply exitRecord_latch.
  - rewrite E5, Hwindow. repeat constructor; lia.
  - rewrite E5, Hmax. simpl. lia.
Qed.

(** With the sixth exit more than the window after the first, the same
    handler schedules a restart. *)
Lemma exits_on_one_record_outside_window (worker : WorkerInstance) :
  restartTimes worker = [] ->
  state (exitsOnOneRecord DEFAULT_WORKER_POOL_CONFIG worker
           [0; 2000; 4000; 6000; 8000; 60001]) = Stopped.
Proof.
  intro Hfresh. unfold exitsOnOneRecord, exitRecord. cbn [fold_left fst].
  rewrite Hfresh. reflexivity.
Qed.

(** In the pool every respawn stores a new record, so every exit finds an
    empty restart history. *)
Lemma crashCycle_slot (w : WorkerId) (p : WorkerPool) (now : Z) :
  stopping p = false ->
  0 < maxRestartAttempts (config p) ->
  let p' := crashCycle w p now in
  stopping p' = false /\ config p' = config p /\
  exists worker, get (workers p') w = Some worker /\
    state worker = Stopped /\ restartCount worker = 1%nat /\ restartTimes worker = [now].
Proof.
  intros Hs Hmax. unfold crashCycle, restartTimerFired. rewrite Hs.
  unfold handleReady, spawnWorker. cbn [workers config stopping log].
  rewrite get_set_same. unfold handleWorkerExit. cbn [workers config stopping log].
  rewrite get_set_same. rewrite ?Hs. unfold exitRecord.
  cbn [restartTimes filter List.length Z.of_nat].
  replace (0 >=? maxRestartAttempts (config p)) with false
    by (symmetry; rewrite Z.geb_leb; apply Z.leb_gt; lia).
  cbn [workers config stopping]. repeat split.
  eexists. rewrite get_set_same. split; [reflexivity|]. repeat split.
Qed.

Lemma firstExit_slot (cfg : WorkerPoolConfig) (w : WorkerId) (t0 : Z) :
  0 < maxRestartAttempts cfg ->
  let p' := handleWorkerExit (started cfg w) w t0 in
  stopping p' = false /\ config p' = cfg /\
  exists worker, get (workers p') w = Some worker /\
    state worker = Stopped /\ restartCount worker = 1%nat /\ restartTimes worker = [t0].
Proof.
  intros Hmax. unfold started, handleReady, spawnWorker.
  cbn [workers config stopping log].
  rewrite get_set_same. unfold handleWorkerExit. cbn [workers config stopping log].
  rewrite get_set_same. unfold exitRecord.
  cbn [restartTimes filter List.length Z.of_nat].
  replace (0 >=? maxRestartAttempts cfg) with false
    by (symmetry; rewrite Z.geb_leb; apply Z.leb_gt; lia).
  cbn [workers config stopping]. repeat split.
  eexists. rewrite get_set_same. split; [reflexivity|]. repeat split.
Qed.

Lemma last_cons {A : Type} (l : list A) : forall x d, last (x :: l) d = last l x.
Proof.
  induction l as [|y l IH]; intros x d; [reflexivity|].
  change (last (x :: y :: l) d) with (last (y :: l) d).
  rewrite !IH. reflexivity.
Qed.

(** X19: however many times and however fast the children of a slot
    exit, each respawned by the restart timer, the slot is never latched
    when [maxRestartAttempts] is positive: after each exit its record is
    Stopped with restart count 1 and a history holding that exit alone,
    because every respawn stores a new record. *)
Lemma slot_never_latched (cfg : WorkerPoolConfig) (w : WorkerId) (t0 : Z) (later : list Z) :
  0 < maxRestartAttempts cfg ->
  exists worker,
    get (workers (afterExits cfg w t0 later)) w = Some worker /\
    state worker = Stopped /\ restartCount worker = 1%nat /\
    restartTimes worker = [last later t0].
Proof.
  intro Hmax. unfold afterExits.
  pose proof (firstExit_slot cfg w t0 Hmax) as H0. cbv zeta in H0.
  revert H0. generalize (handleWorkerExit (started cfg w) w t0) as p. generalize t0 as t.
  induction later as [|t1 later IH]; intros t p (Hs & Hc & worker & Hg & Hst & Hrc & Hrt).
  - exists worker. repeat split; assumption.
  - cbn [fold_left].
    assert (Hmax' : 0 < maxRestartAttempts (config p)) by now rewrite Hc.
    pose proof (crashCycle_slot w p t1 Hs Hmax') as H1. cbv zeta in H1.
    destruct H1 as (Hs1 & Hc1 & H1).
    destruct (IH t1 (crashCycle w p t1)) as (wk & Hg' & Hst' & Hrc' & Hrt').
    { split; [exact Hs1|]. split; [congruence|]. exact H1. }
    exists wk. repeat split; try assumption.
    rewrite Hrt'. now rewrite last_cons.
Qed.

Lemma slot_never_latched_witness :
  exists worker,
    get (workers (afterExits DEFAULT_WORKER_POOL_CONFIG (lit "worker-0") 0 [10; 20; 30])) 
      (lit "worker-0") = Some worker /\
    state worker = Stopped.
Proof.
  destruct (slot_never_latched DEFAULT_WORKER_POOL_CONFIG (lit "worker-0") 0 [10; 20; 30])
    as (worker & Hget & Hstate & _).
  - reflexivity.
  - exists worker. split; assumption.
Defined.

(** C9, on the code: with [maxRestartAttempts = 5] and
    [restartWindow = 60000], a slot whose children exit at 0, 2, 4, 6, 8
    and 10 seconds is not latched by the sixth exit.  The record the
    sixth exit finds was stored by the respawn and has an empty history,
    so the slot is Stopped, no [worker:crash] was emitted, and a sixth
    restart is armed; the exit handler applied to one record that keeps
    its history marks it Crashed at that exit. *)
Theorem sixth_exit_within_window_is_restarted :
  let w := lit "worker-0" in
  let times := [2000; 4000; 6000; 8000; 10000] in
  let p := afterExits DEFAULT_WORKER_POOL_CONFIG w 0 times in
  let fresh := {| workerId := w; process := true; state := Ready; restartCount := 0;
                  restartTimes := []; pendingRequests := [] |} in
  option_map state (get (workers p) w) = Some Stopped /\
  option_map restartTimes (get (workers p) w) = Some [10000] /\
  last (log p) EmitPoolDegraded = ArmRestartTimer w 1000 1 /\
  existsb (fun e => match e with EmitWorkerCrash _ => true | _ => false end) (log p) = false /\
  state (exitsOnOneRecord DEFAULT_WORKER_POOL_CONFIG fresh (0 :: times)) = Crashed.
Proof.
  cbv zeta. repeat split; reflexivity.
Qed.

End PoolFacts.

(** ** The router *)
Section RouterFacts.
Import JS Hash Router Props.

(** *** Sets and maps *)

Lemma set_has_In (s : list WorkerId) (w : WorkerId) : set_has s w = true <-> In w s.
Proof.
  unfold set_has. rewrite existsb_exists. split.
  - intros [x [Hin E]]. apply eqb_eq in E. now subst.
  - intro H. exists w. split; [assumption | apply eqb_refl].
Qed.

Lemma set_has_false (s : list WorkerId) (w : WorkerId) : set_has s w = false <-> ~ In w s.
Proof.
  rewrite <- set_has_In. destruct (set_has s w); split; congruence.
Qed.

Lemma set_delete_In (s : list WorkerId) (w x : WorkerId) :
  In x (set_delete s w) <-> In x s /\ x <> w.
Proof.
  unfold set_delete. rewrite filter_In, negb_true_iff, eqb_neq. tauto.
Qed.

Lemma map_get_In (m : list (UserId * WorkerId)) (u : UserId) (w : WorkerId) :
  map_get m u = Some w -> In (u, w) m.
Proof.
  induction m as [|[k v] m IH]; simpl; [discriminate|].
  destruct (eqb k u) eqn:E.
  - apply eqb_eq in E. intros [= ->]. left. now subst.
  - intro H. right. now apply IH.
Qed.

Lemma map_get_None (m : list (UserId * WorkerId)) (u : UserId) :
  map_get m u = None <-> ~ In u (map fst m).
Proof.
  induction m as [|[k v] m IH]; simpl; [tauto|].
  destruct (eqb k u) eqn:E.
  - apply eqb_eq in E. split; [discriminate | intro H; exfalso; apply H; now left].
  - apply eqb_neq in E. rewrite IH. tauto.
Qed.

Lemma map_set_In (m : list (UserId * WorkerId)) (u : UserId) (w : WorkerId) (kv : UserId * WorkerId) :
  In kv (map_set m u w) -> kv = (u, w) \/ In kv m.
Proof.
  induction m as [|[k v] m IH]; simpl.
  - intros [H|[]]. now left.
  - destruct (eqb k u) eqn:E; simpl.
    + apply eqb_eq in E. subst k. intros [H|H]; [left; now symmetry | right; now right].
    + intros [H|H]; [right; now left|]. destruct (IH H); [now left | right; now right].
Qed.

Lemma map_get_set_same (m : list (UserId * WorkerId)) (u : UserId) (w : WorkerId) :
  map_get (map_set m u w) u = Some w.
Proof.
  induction m as [|[k v] m IH]; simpl.
  - now rewrite eqb_refl.
  - destruct (eqb k u) eqn:E; simpl; rewrite E; [reflexivity | exact IH].
Qed.

Lemma map_get_set_other (m : list (UserId * WorkerId)) (u u' : UserId) (w : WorkerId) :
  u <> u' -> map_get (map_set m u w) u' = map_get m u'.
Proof.
  intro Hne. induction m as [|[k v] m IH]; simpl.
  - apply eqb_neq in Hne. now rewrite Hne.
  - destruct (eqb k u) eqn:E; simpl.
    + apply eqb_eq in E. subst k. apply eqb_neq in Hne. now rewrite Hne.
    + destruct (eqb k u'); [reflexivity | exact IH].
Qed.

Lemma map_set_keys (m : list (UserId * WorkerId)) (u : UserId) (w : WorkerId) :
  map fst (map_set m u w) = if set_has (map fst m) u then map fst m else map fst m ++ [u].
Proof.
  induction m as [|[k v] m IH]; simpl; [reflexivity|].
  unfold set_has in *. simpl. rewrite (eqb_sym u k).
  destruct (eqb k u) eqn:E; simpl; [reflexivity|].
  rewrite IH. destruct (existsb (eqb u) (map fst m)); reflexivity.
Qed.

Lemma map_set_fresh (m : list (UserId * WorkerId)) (u : UserId) (w : WorkerId) :
  ~ In u (map fst m) -> map_set m u w = m ++ [(u, w)].
Proof.
  induction m as [|[k v] m IH]; simpl; intro H; [reflexivity|].
  destruct (eqb k u) eqn:E.
  - apply eqb_eq in E. exfalso. apply H. now left.
  - rewrite IH; [reflexivity|]. intro Hin. apply H. now right.
Qed.

Lemma NoDup_snoc {A : Type} (l : list A) (x : A) : NoDup l -> ~ In x l -> NoDup (l ++ [x]).
Proof.
  intros Hl Hx. apply NoDup_app; [assumption | repeat constructor; intros [] | ].
  intros y Hy [<-|[]]. contradiction.
Qed.

Lemma map_set_NoDup (m : list (UserId * WorkerId)) (u : UserId) (w : WorkerId) :
  NoDup (map fst m) -> NoDup (map fst (map_set m u w)).
Proof.
  intro H. rewrite map_set_keys. destruct (set_has (map fst m) u) eqn:E; [assumption|].
  apply NoDup_snoc; [assumption | now apply set_has_false].
Qed.

Lemma filter_keys_NoDup (f : UserId * WorkerId -> bool) (m : list (UserId * WorkerId)) :
  NoDup (map fst m) -> NoDup (map fst (filter f m)).
Proof.
  induction m as [|kv m IH]; simpl; intro H; [constructor|].
  inversion H as [|? ? Hnin Hnd]; subst.
  destruct (f kv); simpl; [|now apply IH].
  constructor; [|now apply IH].
  intro Hin. apply Hnin. apply in_map_iff in Hin as [kv' [E Hin]].
  apply filter_In in Hin as [Hin _]. apply in_map_iff. now exists kv'.
Qed.

(** *** The stable sort of the ring *)

Lemma insert_perm (x : HashRingNode) (l : list HashRingNode) :
  Permutation (insert x l) (x :: l).
Proof.
  induction l as [|y l IH]; simpl; [reflexivity|].
  destruct (hash x <=? hash y)%Z; [reflexivity|].
  rewrite IH. apply perm_swap.
Qed.

Lemma sort_perm (l : list HashRingNode) : Permutation (sort l) l.
Proof.
  induction l as [|x l IH]; simpl; [reflexivity|].
  rewrite insert_perm. now constructor.
Qed.

Lemma sort_In (l : list HashRingNode) (n : HashRingNode) : In n (sort l) <-> In n l.
Proof.
  split; apply Permutation_in; [apply sort_perm | symmetry; apply sort_perm].
Qed.

Lemma nodeCount_perm (w : WorkerId) (l l' : list HashRingNode) :
  Permutation l l' -> nodeCount w l = nodeCount w l'.
Proof.
  unfold nodeCount. induction 1 as [|x l l' _ IH|x y l|l l' l'' _ IH1 _ IH2]; simpl.
  - reflexivity.
  - destruct (eqb (workerId x) w); simpl; congruence.
  - destruct (eqb (workerId x) w), (eqb (workerId y) w); reflexivity.
  - congruence.
Qed.

Lemma nodeCount_app (w : WorkerId) (l l' : list HashRingNode) :
  nodeCount w (l ++ l') = nodeCount w l + nodeCount w l'.
Proof. unfold nodeCount. now rewrite filter_app, length_app. Qed.

Lemma insert_head (x : HashRingNode) (l : list HashRingNode) :
  Forall (hash_le x) l -> insert x l = x :: l.
Proof.
  destruct 1 as [|y l Hy _]; simpl; [reflexivity|].
  apply Z.leb_le in Hy. now rewrite Hy.
Qed.

Lemma insert_sorted (x : HashRingNode) (l : list HashRingNode) :
  StronglySorted hash_le l -> StronglySorted hash_le (insert x l).
Proof.
  induction 1 as [|y l Hs IH Hy]; simpl.
  - repeat constructor.
  - destruct (Z.leb_spec (hash x) (hash y)) as [Hle|Hgt].
    + constructor; [now constructor|].
      constructor; [exact Hle|].
      eapply Forall_impl; [|exact Hy]. unfold hash_le. intros z Hz. lia.
    + constructor; [exact IH|].
      eapply Permutation_Forall; [symmetry; apply insert_perm|].
      constructor; [unfold hash_le; lia | exact Hy].
Qed.

Lemma sort_sorted (l : list HashRingNode) : StronglySorted hash_le (sort l).
Proof.
  induction l as [|x l IH]; simpl; [constructor | now apply insert_sorted].
Qed.

(** Two insertions with different hashes commute. *)
Lemma insert_insert (x y : HashRingNode) (l : list HashRingNode) :
  (hash y < hash x)%Z -> insert y (insert x l) = insert x (insert y l).
Proof.
  intro Hlt. induction l as [|z l IH]; simpl.
  - destruct (Z.leb_spec (hash y) (hash x)), (Z.leb_spec (hash x) (hash y));
      try lia; reflexivity.
  - destruct (Z.leb_spec (hash x) (hash z)) as [Hxz|Hxz];
    destruct (Z.leb_spec (hash y) (hash z)) as [Hyz|Hyz]; simpl; try lia.
    + destruct (Z.leb_spec (hash y) (hash x)), (Z.leb_spec (hash x) (hash y)),
        (Z.leb_spec (hash x) (hash z)); try lia; reflexivity.
    + destruct (Z.leb_spec (hash y) (hash z)), (Z.leb_spec (hash x) (hash y)),
        (Z.leb_spec (hash x) (hash z)); try lia; reflexivity.
    + destruct (Z.leb_spec (hash y) (hash z)), (Z.leb_spec (hash x) (hash z));
        try lia. now rewrite IH.
Qed.

Lemma sort_insert_app (x : HashRingNode) (s m : list HashRingNode) :
  sort (insert x s ++ m) = insert x (sort (s ++ m)).
Proof.
  induction s as [|y s IH]; simpl; [reflexivity|].
  destruct (Z.leb_spec (hash x) (hash y)) as [Hle|Hgt]; simpl; [reflexivity|].
  rewrite IH. now apply insert_insert.
Qed.

(** Sorting again after appending: the earlier sort can be forgotten. *)
Lemma sort_sort_app (l m : list HashRingNode) : sort (sort l ++ m) = sort (l ++ m).
Proof.
  induction l as [|x l IH]; simpl; [reflexivity|].
  now rewrite sort_insert_app, IH.
Qed.

Lemma filter_insert (f : HashRingNode -> bool) (x : HashRingNode) (l : list HashRingNode) :
  StronglySorted hash_le l ->
  filter f (insert x l) = if f x then insert x (filter f l) else filter f l.
Proof.
  induction 1 as [|y l Hs IH Hy]; simpl.
  - destruct (f x); reflexivity.
  - destruct (Z.leb_spec (hash x) (hash y)) as [Hle|Hgt]; simpl.
    + destruct (f x) eqn:Ex; [|reflexivity].
      symmetry. apply (insert_head x (filter f (y :: l))).
      apply Forall_forall. intros z Hz. apply filter_In in Hz as [[<-|Hz] _].
      * exact Hle.
      * rewrite Forall_forall in Hy. specialize (Hy z Hz). unfold hash_le in *. lia.
    + rewrite IH. destruct (f y), (f x); simpl; try reflexivity.
      destruct (Z.leb_spec (hash x) (hash y)); [lia | reflexivity].
Qed.

Lemma filter_sort (f : HashRingNode -> bool) (l : list HashRingNode) :
  filter f (sort l) = sort (filter f l).
Proof.
  induction l as [|x l IH]; simpl; [reflexivity|].
  rewrite filter_insert by apply sort_sorted.
  rewrite IH. destruct (f x); reflexivity.
Qed.

(** *** Virtual nodes *)

Lemma virtualNodesOf_workerId (w : WorkerId) (vn : nat) (n : HashRingNode) :
  In n (virtualNodesOf w vn) -> workerId n = w.
Proof.
  unfold virtualNodesOf. intro H. apply in_map_iff in H as [i [<- _]]. reflexivity.
Qed.

Lemma virtualNodesOf_length (w : WorkerId) (vn : nat) :
  List.length (virtualNodesOf w vn) = vn.
Proof. unfold virtualNodesOf. now rewrite length_map, length_seq. Qed.

Lemma filter_all {A : Type} (f : A -> bool) (l : list A) :
  (forall x, In x l -> f x = true) -> filter f l = l.
Proof.
  induction l as [|x l IH]; simpl; intro H; [reflexivity|].
  rewrite (H x) by now left. f_equal. apply IH. intros y Hy. apply H. now right.
Qed.

Lemma filter_none {A : Type} (f : A -> bool) (l : list A) :
  (forall x, In x l -> f x = false) -> filter f l = [].
Proof.
  induction l as [|x l IH]; simpl; intro H; [reflexivity|].
  rewrite (H x) by now left. apply IH. intros y Hy. apply H. now right.
Qed.

Lemma nodeCount_virtualNodesOf (w w' : WorkerId) (vn : nat) :
  nodeCount w (virtualNodesOf w' vn) = if eqb w' w then vn else 0.
Proof.
  unfold nodeCount. destruct (eqb w' w) eqn:E.
  - rewrite filter_all; [apply virtualNodesOf_length|].
    intros n Hn. now rewrite (virtualNodesOf_workerId _ _ _ Hn).
  - rewrite filter_none; [reflexivity|].
    intros n Hn. now rewrite (virtualNodesOf_workerId _ _ _ Hn).
Qed.

Lemma nodeCount_absent (w : WorkerId) (l : list HashRingNode) :
  (forall n, In n l -> workerId n <> w) -> nodeCount w l = 0.
Proof.
  intro H. unfold nodeCount. rewrite filter_none; [reflexivity|].
  intros n Hn. apply eqb_neq. now apply H.
Qed.

(** *** [findNode] *)

Lemma findNode_loop_In (fuel : nat) (ring : list HashRingNode) (t : Z) :
  forall left right n,
    findNode_loop fuel ring t left right = Ok n -> In n ring.
Proof.
  induction fuel as [|fuel IH]; intros left right n; simpl.
  - destruct (left <? right); [discriminate|].
    destruct (nth_error ring left) eqn:E; [|discriminate].
    intros [= <-]. eapply nth_error_In; eassumption.
  - destruct (left <? right).
    + destruct (nth_error ring (Nat.div2 (left + right))); [|discriminate].
      destruct (hash h <? t)%Z; apply IH.
    + destruct (nth_error ring left) eqn:E; [|discriminate].
      intros [= <-]. eapply nth_error_In; eassumption.
Qed.

Lemma findNode_In (ring : list HashRingNode) (t : Z) (n : HashRingNode) :
  findNode ring t = Ok n -> In n ring.
Proof.
  unfold findNode. destruct ring as [|first rest]; [discriminate|].
  destruct (nth_error (first :: rest) (List.length (first :: rest) - 1)); [|discriminate].
  destruct (t >? hash h)%Z.
  - intros [= <-]. now left.
  - apply findNode_loop_In.
Qed.

Lemma div2_between (left right : nat) :
  left < right -> left <= Nat.div2 (left + right) < right.
Proof.
  intro H. rewrite Nat.div2_div.
  split.
  - apply Nat.div_le_lower_bound; lia.
  - apply Nat.Div0.div_lt_upper_bound; lia.
Qed.

(** The loop ends within [right - left] iterations and never reads
    outside the array. *)
Lemma findNode_loop_total (ring : list HashRingNode) (t : Z) (fuel : nat) :
  forall left right,
    left <= right -> right < List.length ring -> right - left <= fuel ->
    exists n, findNode_loop fuel ring t left right = Ok n.
Proof.
  induction fuel as [|fuel IH]; intros left right Hlr Hr Hfuel.
  - assert (left = right) by lia. subst. simpl. rewrite Nat.ltb_irrefl.
    destruct (nth_error ring right) eqn:E; [eauto|].
    apply nth_error_None in E. lia.
  - simpl. destruct (Nat.ltb_spec left right) as [Hlt|Hge].
    + pose proof (div2_between left right Hlt) as [Hlo Hhi].
      destruct (nth_error ring (Nat.div2 (left + right))) eqn:E.
      * destruct (hash h <? t)%Z; apply IH; lia.
      * apply nth_error_None in E. lia.
    + destruct (nth_error ring left) eqn:E; [eauto|].
      apply nth_error_None in E. lia.
Qed.

Lemma findNode_total (ring : list HashRingNode) (t : Z) :
  ring <> [] -> exists n, findNode ring t = Ok n /\ In n ring.
Proof.
  intro Hne.
  assert (H : exists n, findNode ring t = Ok n).
  { unfold findNode. destruct ring as [|first rest]; [contradiction|].
    destruct (nth_error (first :: rest) (List.length (first :: rest) - 1)) eqn:E.
    - destruct (t >? hash h)%Z; [eauto|].
      apply findNode_loop_total; simpl; lia.
    - apply nth_error_None in E. simpl in E. lia. }
  destruct H as [n Hn]. exists n. split; [exact Hn | eapply findNode_In; exact Hn].
Qed.

(** *** The consistency invariant *)

Lemma consistent_new (vn : nat) : consistent (new vn).
Proof.
  split; [intros u w [] | split; [intros w [] | intros n []]].
Qed.

Lemma consistent_addWorker (r : StickyRouter) (w : WorkerId) :
  consistent r -> consistent (addWorker r w).
Proof.
  intros (Hc & Hcount & Hsub). unfold addWorker.
  destruct (set_has (workers r) w) eqn:Ehas; [repeat split; assumption|].
  apply set_has_false in Ehas.
  unfold invalidateAffectedRoutes, set_add.
  replace (set_has (workers r) w) with false by (symmetry; now apply set_has_false).
  split; [|split]; simpl.
  - intros u w' Hin. apply in_or_app. left. eapply Hc; eassumption.
  - intros w' Hin.
    rewrite (nodeCount_perm w' _ _ (sort_perm _)), nodeCount_app, nodeCount_virtualNodesOf.
    apply in_app_or in Hin as [Hin|[<-|[]]].
    + rewrite (Hcount w' Hin).
      destruct (eqb w w') eqn:E; [|lia].
      apply eqb_eq in E. subst. contradiction.
    + rewrite eqb_refl, nodeCount_absent; [reflexivity|].
      intros n Hn E. apply Ehas. rewrite <- E. now apply Hsub.
  - intros n Hn. apply (proj1 (sort_In _ _)) in Hn. apply in_or_app.
    apply in_app_or in Hn as [Hn|Hn].
    + left. now apply Hsub.
    + right. left. symmetry. eapply virtualNodesOf_workerId; eassumption.
Qed.

Lemma nodeCount_filter_other (w w' : WorkerId) (l : list HashRingNode) :
  w' <> w ->
  nodeCount w' (filter (fun node => negb (eqb (workerId node) w)) l) = nodeCount w' l.
Proof.
  intro Hne. unfold nodeCount. induction l as [|n l IH]; simpl; [reflexivity|].
  destruct (eqb (workerId n) w) eqn:E; simpl.
  - apply eqb_eq in E.
    replace (eqb (workerId n) w') with false; [exact IH|].
    symmetry. apply eqb_neq. congruence.
  - destruct (eqb (workerId n) w'); simpl; congruence.
Qed.

Lemma consistent_removeWorker (r : StickyRouter) (w : WorkerId) :
  consistent r -> consistent (removeWorker r w).
Proof.
  intros (Hc & Hcount & Hsub). unfold removeWorker.
  destruct (set_has (workers r) w) eqn:Ehas; simpl; [|repeat split; assumption].
  split; [|split]; simpl.
  - intros u w' Hin. apply filter_In in Hin as [Hin Hne]. simpl in Hne.
    apply negb_true_iff, eqb_neq in Hne.
    apply set_delete_In. split; [eapply Hc; eassumption | assumption].
  - intros w' Hin. apply set_delete_In in Hin as [Hin Hne].
    rewrite nodeCount_filter_other by assumption. now apply Hcount.
  - intros n Hn. apply filter_In in Hn as [Hn Hne].
    apply negb_true_iff, eqb_neq in Hne.
    apply set_delete_In. split; [now apply Hsub | assumption].
Qed.

Lemma consistent_cache_set (r : StickyRouter) (u : UserId) (w : WorkerId) :
  consistent r -> In w (workers r) ->
  consistent {| ring := ring r; workers := workers r;
                routingCache := map_set (routingCache r) u w;
                virtualNodes := virtualNodes r |}.
Proof.
  intros (Hc & Hring) Hw. split; [|exact Hring].
  intros u' w' Hin. simpl in *.
  apply map_set_In in Hin as [[= -> ->]|Hin]; [assumption | eapply Hc; eassumption].
Qed.

Lemma consistent_route (r : StickyRouter) (u : UserId) :
  consistent r -> consistent (snd (route r u)).
Proof.
  intro H. unfold route.
  destruct (ring r) as [|first rest] eqn:Ering; [exact H|].
  assert (Hgo : forall b,
    consistent (snd
      match findNode (first :: rest) (fnv1aHash u) with
      | Throw e => (Throw e, r)
      | Ok node =>
        (Ok (mkDecision (workerId node) u (fnv1aHash u) b),
         {| ring := first :: rest; workers := workers r;
            routingCache := map_set (routingCache r) u (workerId node);
            virtualNodes := virtualNodes r |})
      end)).
  { intro b. destruct (findNode (first :: rest) (fnv1aHash u)) as [node|e] eqn:Ef;
      [|exact H].
    simpl. rewrite <- Ering. apply consistent_cache_set; [exact H|].
    destruct H as (_ & _ & Hsub). apply Hsub. rewrite Ering.
    eapply findNode_In; eassumption. }
  destruct (map_get (routingCache r) u) as [cw|].
  - destruct (cacheHit r (Some cw)); [exact H | apply Hgo].
  - apply Hgo.
Qed.

Lemma consistent_forceAssign (r : StickyRouter) (u : UserId) (w : WorkerId) :
  consistent r -> consistent (snd (forceAssign r u w)).
Proof.
  intro H. unfold forceAssign.
  destruct (set_has (workers r) w) eqn:E; simpl; [|exact H].
  apply consistent_cache_set; [exact H | now apply set_has_In].
Qed.

Lemma consistent_clearAssignment (r : StickyRouter) (u : UserId) :
  consistent r -> consistent (clearAssignment r u).
Proof.
  intros (Hc & Hring). split; [|exact Hring].
  intros u' w' Hin. simpl in Hin. unfold map_delete in Hin.
  apply filter_In in Hin as [Hin _]. eapply Hc; eassumption.
Qed.

Lemma consistent_clearCache (r : StickyRouter) : consistent r -> consistent (clearCache r).
Proof.
  intros (Hc & Hring). split; [|exact Hring]. intros u w [].
Qed.

Lemma consistent_step (r : StickyRouter) (o : op) : consistent r -> consistent (step r o).
Proof.
  intro H. destruct o; simpl.
  - now apply consistent_addWorker.
  - now apply consistent_removeWorker.
  - now apply consistent_route.
  - now apply consistent_forceAssign.
  - now apply consistent_clearAssignment.
  - now apply consistent_clearCache.
Qed.

(** [fromState] is a run of [addWorker] and guarded cache insertions. *)
Lemma importAssignment_forceAssign (r : StickyRouter) (a : UserId * WorkerId) :
  importAssignment r a = snd (forceAssign r (fst a) (snd a)).
Proof.
  unfold importAssignment, forceAssign.
  destruct (set_has (workers r) (snd a)); reflexivity.
Qed.

Lemma fromState_steps (st : StickyRouterState) :
  fromState st =
    fold_left step
      (map OpAddWorker (stateWorkers st)
       ++ map (fun a => OpForceAssign (fst a) (snd a)) (stateAssignments st))
      (new (stateVirtualNodes st)).
Proof.
  unfold fromState. rewrite fold_left_app.
  assert (HA : forall ws r, fold_left addWorker ws r = fold_left step (map OpAddWorker ws) r).
  { induction ws as [|w ws IH]; intro r; simpl; [reflexivity | apply IH]. }
  assert (HB : forall l r, fold_left importAssignment l r
                = fold_left step (map (fun a => OpForceAssign (fst a) (snd a)) l) r).
  { induction l as [|a l IH]; intro r; simpl; [reflexivity|].
    rewrite importAssignment_forceAssign. apply IH. }
  now rewrite HA, HB.
Qed.

Lemma fold_step_invariant (P : StickyRouter -> Prop) :
  (forall r o, P r -> P (step r o)) ->
  forall ops r, P r -> P (fold_left step ops r).
Proof.
  intros Hstep ops. induction ops as [|o ops IH]; intros r Hr; simpl; [exact Hr|].
  apply IH. now apply Hstep.
Qed.

Lemma consistent_fromState (st : StickyRouterState) : consistent (fromState st).
Proof.
  rewrite fromState_steps. apply fold_step_invariant.
  - apply consistent_step.
  - apply consistent_new.
Qed.

Lemma reachable_consistent (r : StickyRouter) : reachable r -> consistent r.
Proof.
  induction 1 as [vn|st|r o _ IH].
  - apply consistent_new.
  - apply consistent_fromState.
  - now apply consistent_step.
Qed.

(** C4: the consistency invariant (every cached user maps to a registered
    worker; every registered worker has exactly [virtualNodes] ring
    nodes; no ring node carries an unregistered worker) holds of a new
    router and of every router [fromState] builds, and [addWorker],
    [removeWorker], [route], [forceAssign], [clearAssignment] and
    [clearCache] preserve it, whether they return or throw. *)
Theorem consistency_invariant :
  (forall vn, consistent (new vn)) /\
  (forall st, consistent (fromState st)) /\
  (forall r, consistent r ->
     (forall w, consistent (addWorker r w)) /\
     (forall w, consistent (removeWorker r w)) /\
     (forall u, consistent (snd (route r u))) /\
     (forall u w, consistent (snd (forceAssign r u w))) /\
     (forall u, consistent (clearAssignment r u)) /\
     consistent (clearCache r)).
Proof.
  split; [exact consistent_new|]. split; [exact consistent_fromState|].
  intros r H.
  split; [intro w; now apply consistent_addWorker|].
  split; [intro w; now apply consistent_removeWorker|].
  split; [intro u; now apply consistent_route|].
  split; [intros u w; now apply consistent_forceAssign|].
  split; [intro u; now apply consistent_clearAssignment|].
  now apply consistent_clearCache.
Qed.

Lemma consistency_invariant_witness :
  consistent (snd (route (addWorker (new 2) (lit "worker-0")) (lit "user-1"))).
Proof.
  destruct consistency_invariant as (Hnew & _ & Hstep).
  destruct (Hstep (addWorker (new 2) (lit "worker-0"))) as (_ & _ & Hroute & _).
  - destruct (Hstep (new 2) (Hnew 2)) as (Hadd & _). exact (Hadd (lit "worker-0")).
  - exact (Hroute (lit "user-1")).
Defined.

(** *** The contract of [route] *)

Lemma route_empty (r : StickyRouter) (u : UserId) :
  ring r = [] -> route r u = (Throw NoWorkersAvailable, r).
Proof. intro H. unfold route. now rewrite H. Qed.

Lemma route_cached (r : StickyRouter) (u : UserId) (w : WorkerId) :
  ring r <> [] ->
  map_get (routingCache r) u = Some w ->
  w <> [] ->
  set_has (workers r) w = true ->
  route r u = (Ok (mkDecision w u (fnv1aHash u) false), r).
Proof.
  intros Hring Hget Hw Hhas. unfold route.
  destruct (ring r); [contradiction|].
  rewrite Hget. unfold cacheHit. rewrite Hhas.
  destruct w; [contradiction | reflexivity].
Qed.

Lemma route_uncached (r : StickyRouter) (u : UserId) :
  ring r <> [] ->
  map_get (routingCache r) u = None ->
  exists node,
    findNode (ring r) (fnv1aHash u) = Ok node /\ In node (ring r) /\
    route r u =
      (Ok (mkDecision (workerId node) u (fnv1aHash u) true),
       {| ring := ring r; workers := workers r;
          routingCache := map_set (routingCache r) u (workerId node);
          virtualNodes := virtualNodes r |}).
Proof.
  intros Hring Hget.
  destruct (findNode_total (ring r) (fnv1aHash u) Hring) as [node [Hf Hin]].
  exists node. split; [exact Hf|]. split; [exact Hin|].
  unfold route. destruct (ring r) eqn:E; [contradiction|].
  rewrite Hget, Hf. reflexivity.
Qed.

(** [route] throws exactly on an empty ring, and then
    [NoWorkersAvailable]. *)
Lemma route_throws_iff (r : StickyRouter) (u : UserId) :
  (exists e, fst (route r u) = Throw e) <-> ring r = [].
Proof.
  split.
  - intros [e He]. destruct (ring r) as [|first rest] eqn:Ering; [reflexivity|].
    exfalso. unfold route in He. rewrite Ering in He.
    destruct (findNode_total (first :: rest) (fnv1aHash u)) as [node [Hf _]];
      [discriminate|].
    rewrite Hf in He.
    destruct (map_get (routingCache r) u); [destruct (cacheHit r (Some w))|];
      discriminate.
  - intro H. exists NoWorkersAvailable. now rewrite route_empty.
Qed.

(** C2, on the code: the cache test of [route] is a truthiness test, so a
    worker registered under the empty string is never found in the cache.
    On a router holding that one worker, the second [route] of a user
    finds the user cached to a registered worker and still goes to the
    ring, returning [isNewAssignment = true]. *)
Theorem route_misses_cached_empty_worker_id :
  let r0 := addWorker (new DEFAULT_VIRTUAL_NODES) [] in
  let u := lit "user-123" in
  let r1 := snd (route r0 u) in
  fst (route r0 u) = Ok (mkDecision [] u (fnv1aHash u) true) /\
  map_get (routingCache r1) u = Some [] /\
  set_has (workers r1) [] = true /\
  fst (route r1 u) = Ok (mkDecision [] u (fnv1aHash u) true).
Proof.
  cbv zeta.
  split; [vm_compute; reflexivity|].
  split; [vm_compute; reflexivity|].
  split; vm_compute; reflexivity.
Qed.

(** *** Stickiness *)

Lemma map_get_filter (f : UserId * WorkerId -> bool) (m : list (UserId * WorkerId))
  (u : UserId) (w : WorkerId) :
  map_get m u = Some w -> f (u, w) = true -> map_get (filter f m) u = Some w.
Proof.
  intros Hget Hf. induction m as [|[k v] m IH]; simpl in *; [discriminate|].
  destruct (eqb k u) eqn:E.
  - apply eqb_eq in E. injection Hget as ->. subst k. rewrite Hf. simpl.
    now rewrite eqb_refl.
  - destruct (f (k, v)); simpl; [rewrite E|]; now apply IH.
Qed.

Lemma step_virtualNodes (r : StickyRouter) (o : op) :
  virtualNodes (step r o) = virtualNodes r.
Proof.
  destruct o; simpl.
  - unfold addWorker. destruct (set_has (workers r) w); reflexivity.
  - unfold removeWorker. destruct (set_has (workers r) w); reflexivity.
  - unfold route. destruct (ring r); [reflexivity|].
    destruct (map_get (routingCache r) u);
      [destruct (cacheHit r (Some w))|];
      try reflexivity; destruct (findNode _ _); reflexivity.
  - unfold forceAssign. destruct (set_has (workers r) w); reflexivity.
  - reflexivity.
  - reflexivity.
Qed.

Lemma ring_nonempty (r : StickyRouter) (w : WorkerId) :
  consistent r -> 0 < virtualNodes r -> In w (workers r) -> ring r <> [].
Proof.
  intros (_ & Hcount & _) Hvn Hw E.
  specialize (Hcount w Hw). rewrite E in Hcount. unfold nodeCount in Hcount.
  simpl in Hcount. lia.
Qed.

(** What an operation that [keeps] the assignment preserves. *)
Lemma step_keeps_assignment (r : StickyRouter) (u : UserId) (w : WorkerId) (o : op) :
  consistent r -> 0 < virtualNodes r -> w <> [] ->
  map_get (routingCache r) u = Some w ->
  keeps u w o = true ->
  map_get (routingCache (step r o)) u = Some w.
Proof.
  intros Hc Hvn Hw Hget Hk.
  assert (Hin : In w (workers r)).
  { destruct Hc as (Hcache & _). eapply Hcache, map_get_In, Hget. }
  destruct o as [w'|w'|u'|u' w'|u'|]; simpl in *.
  - unfold addWorker. destruct (set_has (workers r) w'); exact Hget.
  - unfold removeWorker. destruct (set_has (workers r) w'); simpl; [|exact Hget].
    apply map_get_filter; [exact Hget|]. simpl. now rewrite eqb_sym.
  - destruct (eqb u' u) eqn:E.
    + apply eqb_eq in E. subst u'.
      rewrite (route_cached r u w); try assumption.
      * eapply ring_nonempty; eassumption.
      * now apply set_has_In.
    + apply eqb_neq in E. unfold route. destruct (ring r); [exact Hget|].
      destruct (map_get (routingCache r) u') as [cw|];
        [destruct (cacheHit r (Some cw)); [exact Hget|]|];
        (destruct (findNode _ _); simpl; [now rewrite map_get_set_other | exact Hget]).
  - apply negb_true_iff, eqb_neq in Hk.
    unfold forceAssign. destruct (set_has (workers r) w'); simpl; [|exact Hget].
    now rewrite map_get_set_other.
  - unfold map_delete. apply map_get_filter; [exact Hget|].
    simpl. now rewrite eqb_sym.
  - discriminate.
Qed.

Lemma addWorker_idempotent (r : StickyRouter) (w : WorkerId) :
  addWorker (addWorker r w) w = addWorker r w.
Proof.
  unfold addWorker at 1.
  replace (set_has (workers (addWorker r w)) w) with true; [reflexivity|].
  symmetry. apply set_has_In. unfold addWorker.
  destruct (set_has (workers r) w) eqn:E; [now apply set_has_In|].
  simpl. unfold set_add. rewrite E. apply in_or_app. right. now left.
Qed.

Lemma addWorker_cache (r : StickyRouter) (w : WorkerId) :
  routingCache (addWorker r w) = routingCache r.
Proof. unfold addWorker. destruct (set_has (workers r) w); reflexivity. Qed.

(** C1 (as amended): on a router with at least one virtual node per
    worker, a user cached to a worker whose id is not the empty string
    keeps routing to that worker, with [isNewAssignment = false] and the
    router unchanged by the call, after any sequence of operations that
    neither removes that worker nor clears or overrides that user's
    entry; [addWorker] is idempotent and leaves the cache as it is, so
    the user routes to the same worker after any worker is added. *)
Theorem sticky_while_worker_in_pool
  (r : StickyRouter) (u : UserId) (w : WorkerId) (ops : list op) :
  consistent r ->
  0 < virtualNodes r ->
  w <> [] ->
  map_get (routingCache r) u = Some w ->
  forallb (keeps u w) ops = true ->
  (let r' := fold_left step ops r in
   route r' u = (Ok (mkDecision w u (fnv1aHash u) false), r')) /\
  (forall w',
     addWorker (addWorker r w') w' = addWorker r w' /\
     routingCache (addWorker r w') = routingCache r /\
     route (addWorker r w') u
       = (Ok (mkDecision w u (fnv1aHash u) false), addWorker r w')).
Proof.
  intros Hc Hvn Hw Hget Hops.
  assert (Hgen : forall ops r,
    consistent r -> 0 < virtualNodes r -> map_get (routingCache r) u = Some w ->
    forallb (keeps u w) ops = true ->
    route (fold_left step ops r) u
      = (Ok (mkDecision w u (fnv1aHash u) false), fold_left step ops r)).
  { clear r Hc Hvn Hget ops Hops.
    induction ops as [|o ops IH]; intros r Hc Hvn Hget Hops; simpl.
    - assert (Hin : In w (workers r)).
      { destruct Hc as (Hcache & _). eapply Hcache, map_get_In, Hget. }
      apply route_cached; try assumption.
      + eapply ring_nonempty; eassumption.
      + now apply set_has_In.
    - simpl in Hops. apply andb_true_iff in Hops as [Ho Hops].
      apply IH; try assumption.
      + now apply consistent_step.
      + now rewrite step_virtualNodes.
      + now apply step_keeps_assignment. }
  split.
  - cbv zeta. now apply Hgen.
  - intro w'. split; [apply addWorker_idempotent|].
    split; [apply addWorker_cache|].
    apply (Hgen [OpAddWorker w'] r); try assumption. reflexivity.
Qed.

Lemma sticky_while_worker_in_pool_witness :
  let r := snd (route (addWorker (new 2) (lit "worker-0")) (lit "user-1")) in
  route (addWorker r (lit "worker-1")) (lit "user-1")
    = (Ok (mkDecision (lit "worker-0") (lit "user-1") (fnv1aHash (lit "user-1")) false),
       addWorker r (lit "worker-1")).
Proof.
  cbv zeta.
  apply (sticky_while_worker_in_pool
           (snd (route (addWorker (new 2) (lit "worker-0")) (lit "user-1")))
           (lit "user-1") (lit "worker-0") [OpAddWorker (lit "worker-1")]).
  - apply consistent_route, consistent_addWorker, consistent_new.
  - vm_compute. lia.
  - discriminate.
  - reflexivity.
  - reflexivity.
Defined.

(** C1, as stated, fails on a router built with no virtual nodes: its
    ring stays empty, so a user cached (by [forceAssign]) to a registered
    worker is not routed at all. *)
Lemma cached_user_not_routed_without_virtual_nodes :
  let r := snd (forceAssign (addWorker (new 0) (lit "worker-0"))
                  (lit "user-1") (lit "worker-0")) in
  map_get (routingCache r) (lit "user-1") = Some (lit "worker-0") /\
  set_has (workers r) (lit "worker-0") = true /\
  route r (lit "user-1") = (Throw NoWorkersAvailable, r).
Proof.
  cbv zeta. repeat split; reflexivity.
Qed.

(** *** The canonical shape of reachable routers *)

Lemma canonical_new (vn : nat) : canonical (new vn).
Proof. repeat split; constructor. Qed.

Lemma canonical_addWorker (r : StickyRouter) (w : WorkerId) :
  canonical r -> canonical (addWorker r w).
Proof.
  intros (Hws & Hkeys & Hring). unfold addWorker.
  destruct (set_has (workers r) w) eqn:Ehas; [repeat split; assumption|].
  unfold invalidateAffectedRoutes, set_add. rewrite Ehas.
  apply set_has_false in Ehas.
  split; [|split]; simpl.
  - now apply NoDup_snoc.
  - exact Hkeys.
  - rewrite Hring, sort_sort_app, flat_map_app. simpl. now rewrite app_nil_r.
Qed.

Lemma filter_flat_map_virtualNodes (w : WorkerId) (vn : nat) (ws : list WorkerId) :
  filter (fun node => negb (eqb (workerId node) w))
    (flat_map (fun w' => virtualNodesOf w' vn) ws)
  = flat_map (fun w' => virtualNodesOf w' vn) (set_delete ws w).
Proof.
  induction ws as [|w' ws IH]; simpl; [reflexivity|].
  rewrite filter_app, IH.
  destruct (eqb w' w) eqn:E; simpl.
  - rewrite filter_none; [reflexivity|].
    intros n Hn. rewrite (virtualNodesOf_workerId _ _ _ Hn), E. reflexivity.
  - rewrite filter_all; [reflexivity|].
    intros n Hn. rewrite (virtualNodesOf_workerId _ _ _ Hn), E. reflexivity.
Qed.

Lemma canonical_removeWorker (r : StickyRouter) (w : WorkerId) :
  canonical r -> canonical (removeWorker r w).
Proof.
  intros (Hws & Hkeys & Hring). unfold removeWorker.
  destruct (set_has (workers r) w); simpl; [|repeat split; assumption].
  split; [|split]; simpl.
  - unfold set_delete. now apply NoDup_filter.
  - now apply filter_keys_NoDup.
  - rewrite Hring, filter_sort, filter_flat_map_virtualNodes. reflexivity.
Qed.

Lemma canonical_cache (r : StickyRouter) (c : list (UserId * WorkerId)) :
  canonical r -> NoDup (map fst c) ->
  canonical {| ring := ring r; workers := workers r; routingCache := c;
               virtualNodes := virtualNodes r |}.
Proof. intros (Hws & _ & Hring) Hc. repeat split; assumption. Qed.

Lemma canonical_step (r : StickyRouter) (o : op) : canonical r -> canonical (step r o).
Proof.
  intro H. pose proof H as (_ & Hkeys & _). destruct o as [w|w|u|u w|u|]; simpl.
  - now apply canonical_addWorker.
  - now apply canonical_removeWorker.
  - unfold route. destruct (ring r) as [|first rest] eqn:Ering; [exact H|].
    assert (Hgo : forall b,
      canonical (snd
        match findNode (first :: rest) (fnv1aHash u) with
        | Throw e => (Throw e, r)
        | Ok node =>
          (Ok (mkDecision (workerId node) u (fnv1aHash u) b),
           {| ring := first :: rest; workers := workers r;
              routingCache := map_set (routingCache r) u (workerId node);
              virtualNodes := virtualNodes r |})
        end)).
    { intro b. destruct (findNode (first :: rest) (fnv1aHash u)); [|exact H].
      simpl. rewrite <- Ering. apply canonical_cache; [exact H|].
      now apply map_set_NoDup. }
    destruct (map_get (routingCache r) u) as [cw|];
      [destruct (cacheHit r (Some cw)); [exact H | apply Hgo] | apply Hgo].
  - unfold forceAssign. destruct (set_has (workers r) w); simpl; [|exact H].
    apply canonical_cache; [exact H | now apply map_set_NoDup].
  - apply canonical_cache; [exact H|]. unfold map_delete. now apply filter_keys_NoDup.
  - apply canonical_cache; [exact H | constructor].
Qed.

Lemma reachable_canonical (r : StickyRouter) : reachable r -> canonical r.
Proof.
  induction 1 as [vn|st|r o _ IH].
  - apply canonical_new.
  - rewrite fromState_steps. apply fold_step_invariant;
      [apply canonical_step | apply canonical_new].
  - now apply canonical_step.
Qed.

(** *** Export and import *)

Lemma router_eta (r : StickyRouter) :
  r = {| ring := ring r; workers := workers r; routingCache := routingCache r;
         virtualNodes := virtualNodes r |}.
Proof. now destruct r. Qed.

Lemma fold_addWorker_fresh (ws : list WorkerId) : forall r0,
  NoDup (workers r0 ++ ws) ->
  ring r0 = sort (flat_map (fun w => virtualNodesOf w (virtualNodes r0)) (workers r0)) ->
  fold_left addWorker ws r0 =
    {| ring := sort (flat_map (fun w => virtualNodesOf w (virtualNodes r0))
                       (workers r0 ++ ws));
       workers := workers r0 ++ ws;
       routingCache := routingCache r0;
       virtualNodes := virtualNodes r0 |}.
Proof.
  induction ws as [|w ws IH]; intros r0 Hnd Hring; simpl.
  - rewrite app_nil_r, <- Hring. apply router_eta.
  - assert (Hfresh : ~ In w (workers r0)).
    { intro Hin. apply NoDup_remove_2 in Hnd. apply Hnd. apply in_or_app. now left. }
    assert (Hadd : addWorker r0 w =
      {| ring := sort (flat_map (fun w => virtualNodesOf w (virtualNodes r0))
                         (workers r0 ++ [w]));
         workers := workers r0 ++ [w];
         routingCache := routingCache r0;
         virtualNodes := virtualNodes r0 |}).
    { unfold addWorker, invalidateAffectedRoutes, set_add.
      replace (set_has (workers r0) w) with false by (symmetry; now apply set_has_false).
      rewrite Hring, sort_sort_app, flat_map_app. simpl. now rewrite app_nil_r. }
    rewrite Hadd, IH; simpl.
    + now rewrite <- !app_assoc.
    + now rewrite <- app_assoc.
    + reflexivity.
Qed.

Lemma fold_importAssignment_fresh (l : list (UserId * WorkerId)) : forall r0,
  (forall u w, In (u, w) l -> In w (workers r0)) ->
  NoDup (map fst (routingCache r0 ++ l)) ->
  fold_left importAssignment l r0 =
    {| ring := ring r0; workers := workers r0;
       routingCache := routingCache r0 ++ l;
       virtualNodes := virtualNodes r0 |}.
Proof.
  induction l as [|[u w] l IH]; intros r0 Hreg Hnd; simpl.
  - rewrite app_nil_r. apply router_eta.
  - assert (Hfresh : ~ In u (map fst (routingCache r0))).
    { rewrite map_app in Hnd. simpl in Hnd. apply NoDup_remove_2 in Hnd.
      intro Hin. apply Hnd. apply in_or_app. now left. }
    assert (Himp : importAssignment r0 (u, w) =
      {| ring := ring r0; workers := workers r0;
         routingCache := routingCache r0 ++ [(u, w)];
         virtualNodes := virtualNodes r0 |}).
    { unfold importAssignment. simpl.
      replace (set_has (workers r0) w) with true
        by (symmetry; apply set_has_In, (Hreg u w); now left).
      now rewrite map_set_fresh. }
    rewrite Himp, IH; simpl.
    + now rewrite <- app_assoc.
    + intros u' w' Hin. apply (Hreg u' w'). now right.
    + now rewrite <- app_assoc.
Qed.

Lemma fromState_exportState (r : StickyRouter) :
  canonical r -> cacheRegistered r -> fromState (exportState r) = r.
Proof.
  intros (Hws & Hkeys & Hring) Hreg. unfold fromState, exportState. simpl.
  rewrite (fold_addWorker_fresh (workers r) (new (virtualNodes r)));
    [|simpl; assumption | reflexivity].
  rewrite fold_importAssignment_fresh; simpl.
  - rewrite <- Hring. symmetry. apply router_eta.
  - exact Hreg.
  - exact Hkeys.
Qed.

Lemma fold_addWorker_workers (ws : list WorkerId) : forall r0 w,
  In w (workers (fold_left addWorker ws r0)) -> In w (workers r0) \/ In w ws.
Proof.
  induction ws as [|w' ws IH]; intros r0 w Hin; simpl in *; [now left|].
  apply IH in Hin as [Hin|Hin]; [|right; now right].
  unfold addWorker in Hin. destruct (set_has (workers r0) w'); [now left|].
  simpl in Hin. unfold set_add in Hin.
  destruct (set_has (workers r0) w'); [now left|].
  apply in_app_or in Hin as [Hin|[<-|[]]]; [now left | right; now left].
Qed.

Lemma fold_importAssignment_inv (l : list (UserId * WorkerId)) : forall r0,
  workers (fold_left importAssignment l r0) = workers r0 /\
  forall kv, In kv (routingCache (fold_left importAssignment l r0)) ->
             In kv (routingCache r0) \/ In kv l.
Proof.
  induction l as [|a l IH]; intro r0; simpl; [split; [reflexivity | now left]|].
  destruct (IH (importAssignment r0 a)) as [Hw Hc].
  assert (Hw0 : workers (importAssignment r0 a) = workers r0).
  { unfold importAssignment. destruct (set_has (workers r0) (snd a)); reflexivity. }
  split; [congruence|].
  intros kv Hin. apply Hc in Hin as [Hin|Hin]; [|right; now right].
  unfold importAssignment in Hin. destruct (set_has (workers r0) (snd a)); [|now left].
  simpl in Hin. apply map_set_In in Hin as [->|Hin]; [|now left].
  right. left. now destruct a.
Qed.

Lemma fold_addWorker_cache (ws : list WorkerId) : forall r0,
  routingCache (fold_left addWorker ws r0) = routingCache r0.
Proof.
  induction ws as [|x ws IH]; intro r0; simpl; [reflexivity|].
  rewrite IH. apply addWorker_cache.
Qed.

(** Every entry of an imported cache is an entry of the state's
    assignments whose worker is in the state's worker list. *)
Lemma fromState_cache_origin (st : StickyRouterState) (u : UserId) (w : WorkerId) :
  In (u, w) (routingCache (fromState st)) ->
  In (u, w) (stateAssignments st) /\ In w (stateWorkers st).
Proof.
  intro Hin. split.
  - unfold fromState in Hin.
    apply fold_importAssignment_inv in Hin as [Hin|Hin]; [|exact Hin].
    rewrite fold_addWorker_cache in Hin. destruct Hin.
  - destruct (consistent_fromState st) as (Hreg & _).
    apply Hreg in Hin. unfold fromState in Hin.
    rewrite (proj1 (fold_importAssignment_inv _ _)) in Hin.
    apply fold_addWorker_workers in Hin as [[]|Hin]. exact Hin.
Qed.

(** C5: for every router [r] obtained through the router's operations,
    [fromState (exportState r)] is [r] itself: the same worker set, the
    same assignment cache, the same [virtualNodes], the same ring, and so
    the same outcome of [route] and [peek] for every user.  For every state,
    whatever it lists, the imported cache holds only entries of the
    state's assignments whose worker is in the state's [workers]: an
    assignment whose worker is absent is dropped. *)
Theorem export_import_round_trip :
  (forall r, reachable r ->
     fromState (exportState r) = r /\
     workers (fromState (exportState r)) = workers r /\
     routingCache (fromState (exportState r)) = routingCache r /\
     virtualNodes (fromState (exportState r)) = virtualNodes r /\
     (forall u, route (fromState (exportState r)) u = route r u) /\
     (forall u, peek (fromState (exportState r)) u = peek r u)) /\
  (forall st u w,
     In (u, w) (stateAssignments st) -> ~ In w (stateWorkers st) ->
     ~ In (u, w) (routingCache (fromState st))) /\
  (forall st u w,
     In (u, w) (routingCache (fromState st)) ->
     In (u, w) (stateAssignments st) /\ In w (stateWorkers st)).
Proof.
  split; [|split].
  - intros r Hr.
    assert (E : fromState (exportState r) = r).
    { apply fromState_exportState.
      - now apply reachable_canonical.
      - now apply reachable_consistent. }
    rewrite E. repeat split; reflexivity.
  - intros st u w _ Habsent Hin. apply Habsent.
    now apply (fromState_cache_origin st u w).
  - exact fromState_cache_origin.
Qed.

Lemma export_import_round_trip_witness :
  let r := snd (route (fold_left addWorker [lit "worker-0"; lit "worker-1"] (new 3))
                  (lit "user-1")) in
  fromState (exportState r) = r.
Proof.
  intro r.
  destruct export_import_round_trip as (Hround & _).
  destruct (Hround r) as (E & _); [|exact E].
  exact (reach_step _ (OpRoute (lit "user-1"))
           (reach_step _ (OpAddWorker (lit "worker-1"))
              (reach_step _ (OpAddWorker (lit "worker-0")) (reach_new 3)))).
Defined.

(** *** Distribution *)

(** C6 (as amended): on a router with the default 150 virtual nodes whose
    four workers are [worker-0] ... [worker-3], the ids the supervisor
    registers, routing [user-0] ... [user-999] assigns 313, 312, 172 and
    203 users to them: each worker receives at least 51 and at most 499. *)
Theorem distribution_pool_workers :
  let r := createStickyRouter (poolWorkerIds 4) None in
  let ds := routeEach r (userIds 1000) in
  assignmentCounts r (userIds 1000) (poolWorkerIds 4) = [313; 312; 172; 203] /\
  forall w, In w (workers r) -> 51 <= assigned w ds <= 499.
Proof.
  cbv zeta.
  assert (Hcounts : assignmentCounts (createStickyRouter (poolWorkerIds 4) None)
                      (userIds 1000) (poolWorkerIds 4) = [313; 312; 172; 203])
    by (vm_compute; reflexivity).
  split; [exact Hcounts|].
  assert (Hws : workers (createStickyRouter (poolWorkerIds 4) None) = poolWorkerIds 4)
    by (vm_compute; reflexivity).
  rewrite Hws. intros w Hw.
  unfold assignmentCounts in Hcounts. cbv zeta in Hcounts.
  apply (in_map (fun w => assigned w
           (routeEach (createStickyRouter (poolWorkerIds 4) None) (userIds 1000)))) in Hw.
  rewrite Hcounts in Hw. cbv beta in Hw.
  destruct Hw as [Hw|[Hw|[Hw|[Hw|[]]]]]; rewrite <- Hw; lia.
Qed.

(** C6, as stated for any four workers, fails on the workers [p0] ...
    [p3]: of the same thousand users, 514 go to [p1]. *)
Lemma distribution_fails_for_other_workers :
  let ws := [lit "p0"; lit "p1"; lit "p2"; lit "p3"] in
  let r := createStickyRouter ws None in
  workers r = ws /\ virtualNodes r = 150 /\
  assignmentCounts r (userIds 1000) ws = [127; 514; 137; 222] /\
  ~ (forall w, In w (workers r) -> 51 <= assigned w (routeEach r (userIds 1000)) <= 499).
Proof.
  cbv zeta.
  assert (Hws : workers (createStickyRouter [lit "p0"; lit "p1"; lit "p2"; lit "p3"] None)
                = [lit "p0"; lit "p1"; lit "p2"; lit "p3"]) by (vm_compute; reflexivity).
  assert (Hcounts : assignmentCounts
                      (createStickyRouter [lit "p0"; lit "p1"; lit "p2"; lit "p3"] None)
                      (userIds 1000) [lit "p0"; lit "p1"; lit "p2"; lit "p3"]
                    = [127; 514; 137; 222]) by (vm_compute; reflexivity).
  split; [exact Hws|]. split; [vm_compute; reflexivity|]. split; [exact Hcounts|].
  intro H.
  assert (HF : Forall (fun n => 51 <= n <= 499)
                 (assignmentCounts
                    (createStickyRouter [lit "p0"; lit "p1"; lit "p2"; lit "p3"] None)
                    (userIds 1000) [lit "p0"; lit "p1"; lit "p2"; lit "p3"])).
  { unfold assignmentCounts. apply Forall_forall. intros n Hn.
    apply in_map_iff in Hn as [w [<- Hw]]. apply H. rewrite Hws. exact Hw. }
  rewrite Hcounts in HF.
  inversion HF as [|? ? _ HF1]. inversion HF1 as [|? ? Hbad _]. lia.
Qed.

End RouterFacts.

(** ** Further properties of the router *)
Section RouterLookup.
Import JS Hash Router Props.

(** *** [findNode] on a sorted ring *)

Lemma sorted_nth (ring : list HashRingNode) :
  StronglySorted hash_le ring ->
  forall i j a b, i <= j ->
    nth_error ring i = Some a -> nth_error ring j = Some b -> (hash a <= hash b)%Z.
Proof.
  induction 1 as [|x l Hs IH Hx]; intros i j a b Hij Ha Hb.
  - destruct i; discriminate.
  - destruct i as [|i], j as [|j]; simpl in *.
    + injection Ha as <-. injection Hb as <-. lia.
    + injection Ha as <-. apply nth_error_In in Hb.
      rewrite Forall_forall in Hx. apply (Hx b Hb).
    + lia.
    + apply (IH i j); [lia | assumption | assumption].
Qed.

(** The loop keeps every node left of [left] below the target and the
    node at [right] at or above it, and stops on the first node at or
    above the target. *)
Lemma findNode_loop_first (ring : list HashRingNode) (t : Z) :
  StronglySorted hash_le ring ->
  forall fuel left right,
    left <= right -> right < List.length ring -> right - left <= fuel ->
    (forall j m, j < left -> nth_error ring j = Some m -> (hash m < t)%Z) ->
    (exists m, nth_error ring right = Some m /\ (t <= hash m)%Z) ->
    exists i n,
      findNode_loop fuel ring t left right = Ok n /\
      nth_error ring i = Some n /\ (t <= hash n)%Z /\
      forall j m, j < i -> nth_error ring j = Some m -> (hash m < t)%Z.
Proof.
  intros Hsorted fuel. induction fuel as [|fuel IH]; intros left right Hlr Hr Hfuel Hlow Hhigh.
  - assert (left = right) by lia. subst left.
    destruct Hhigh as [m [Hm Htm]].
    exists right, m. simpl. rewrite Nat.ltb_irrefl, Hm. auto.
  - simpl. destruct (Nat.ltb_spec left right) as [Hlt|Hge].
    + pose proof (div2_between left right Hlt) as [Hlo Hhi].
      destruct (nth_error ring (Nat.div2 (left + right))) as [mid|] eqn:Emid.
      * destruct (Z.ltb_spec (hash mid) t) as [Hmt|Hmt].
        -- apply IH; try lia; [|exact Hhigh].
           intros j m Hj Hm.
           assert (hash m <= hash mid)%Z
             by (apply (sorted_nth ring Hsorted j (Nat.div2 (left + right))); [lia | assumption | assumption]).
           lia.
        -- apply IH; try lia; [exact Hlow|].
           exists mid. split; [exact Emid | lia].
      * apply nth_error_None in Emid. lia.
    + assert (left = right) by lia. subst left.
      destruct Hhigh as [m [Hm Htm]].
      exists right, m. rewrite Hm. auto.
Qed.

Lemma nth_error_last_cons (x : HashRingNode) (l : list HashRingNode) :
  exists lastNode, nth_error (x :: l) (List.length (x :: l) - 1) = Some lastNode.
Proof.
  destruct (nth_error (x :: l) (List.length (x :: l) - 1)) eqn:E; [eauto|].
  apply nth_error_None in E. simpl in E. lia.
Qed.

(** X1: on a non-empty ring sorted by hash, [findNode] returns the first
    node whose hash is at or above the target, every node before it being
    below the target; when every node is below the target it returns the
    first node of the ring. *)
Theorem findNode_first_at_or_above (ring : list HashRingNode) (t : Z) :
  StronglySorted hash_le ring ->
  ring <> [] ->
  exists n,
    findNode ring t = Ok n /\
    ((exists pre post,
        ring = pre ++ n :: post /\
        Forall (fun m => (hash m < t)%Z) pre /\ (t <= hash n)%Z)
     \/
     (Forall (fun m => (hash m < t)%Z) ring /\ exists rest, ring = n :: rest)).
Proof.
  intros Hsorted Hne. destruct ring as [|first rest]; [contradiction|].
  destruct (nth_error_last_cons first rest) as [lastNode Hlast].
  unfold findNode. rewrite Hlast.
  destruct (Z.gtb_spec t (hash lastNode)) as [Hgt|Hle].
  - exists first. split; [reflexivity|]. right. split; [|now exists rest].
    apply Forall_forall. intros m Hm.
    apply In_nth_error in Hm as [j Hj].
    assert (j < List.length (first :: rest)) by (apply nth_error_Some; congruence).
    assert (hash m <= hash lastNode)%Z
      by (apply (sorted_nth _ Hsorted j (List.length (first :: rest) - 1));
          [lia | assumption | assumption]).
    lia.
  - destruct (findNode_loop_first (first :: rest) t Hsorted
                (List.length (first :: rest)) 0 (List.length (first :: rest) - 1))
      as (i & n & Hfind & Hi & Hn & Hbefore).
    + lia.
    + simpl. lia.
    + lia.
    + intros j m Hj. lia.
    + exists lastNode. split; [exact Hlast | lia].
    + exists n. split; [exact Hfind|]. left.
      destruct (nth_error_split _ _ Hi) as (pre & post & Hsplit & Hlen).
      exists pre, post. split; [exact Hsplit|]. split; [|exact Hn].
      apply Forall_forall. intros m Hm.
      apply In_nth_error in Hm as [j Hj].
      assert (Hjlt : j < List.length pre) by (apply nth_error_Some; congruence).
      apply (Hbefore j m); [lia|].
      rewrite Hsplit, nth_error_app1; assumption.
Qed.

Lemma findNode_first_witness :
  exists n, findNode (sort (virtualNodesOf (lit "worker-0") 3)) 0 = Ok n.
Proof.
  destruct (findNode_first_at_or_above (sort (virtualNodesOf (lit "worker-0") 3)) 0)
    as (n & Hn & _).
  - apply sort_sorted.
  - vm_compute. discriminate.
  - now exists n.
Defined.

(** *** Shape of the ring *)

Lemma flat_map_virtualNodes_length (vn : nat) (ws : list WorkerId) :
  List.length (flat_map (fun w => virtualNodesOf w vn) ws) = vn * List.length ws.
Proof.
  induction ws as [|w ws IH]; simpl; [lia|].
  rewrite length_app, virtualNodesOf_length, IH. lia.
Qed.

(** X2: every router obtained through the operations keeps its ring
    sorted by ascending hash, with [virtualNodes] nodes per registered
    worker, and keeps its worker set and its cache keys free of
    repetitions. *)
Theorem reachable_ring_sorted_and_sized (r : StickyRouter) :
  reachable r ->
  StronglySorted hash_le (ring r) /\
  List.length (ring r) = virtualNodes r * List.length (workers r) /\
  NoDup (workers r) /\ NoDup (map fst (routingCache r)).
Proof.
  intro Hr. destruct (reachable_canonical r Hr) as (Hws & Hkeys & Hring).
  split; [rewrite Hring; apply sort_sorted|].
  split; [|split; assumption].
  rewrite Hring, (Permutation_length (sort_perm _)).
  apply flat_map_virtualNodes_length.
Qed.

Lemma reachable_ring_witness :
  List.length (ring (addWorker (addWorker (new 150) (lit "worker-0")) (lit "worker-1")))
  = 150 * 2.
Proof.
  destruct (reachable_ring_sorted_and_sized
              (addWorker (addWorker (new 150) (lit "worker-0")) (lit "worker-1")))
    as (_ & Hlen & _).
  - exact (reach_step _ (OpAddWorker (lit "worker-1"))
             (reach_step _ (OpAddWorker (lit "worker-0")) (reach_new 150))).
  - rewrite Hlen. vm_compute. reflexivity.
Defined.

End RouterLookup.

(** ** Further properties of the router's operations *)
Section RouterOps.
Import JS Hash Router Props.

(** *** [peek] *)

(** X3: [peek] never throws and returns [null] exactly on an empty ring;
    on a non-empty ring it names the worker of a ring node, which is the
    worker [route] assigns, with [isNewAssignment = true], to a user that
    is not cached, and to any user right after [clearAssignment]. *)
Theorem peek_agrees_with_fresh_route (r : StickyRouter) (u : UserId) :
  (forall e, peek r u <> Throw e) /\
  (peek r u = Ok None <-> ring r = []) /\
  (ring r <> [] ->
   exists node,
     In node (ring r) /\ peek r u = Ok (Some (workerId node)) /\
     (map_get (routingCache r) u = None ->
      fst (route r u) = Ok (mkDecision (workerId node) u (fnv1aHash u) true)) /\
     fst (route (clearAssignment r u) u)
       = Ok (mkDecision (workerId node) u (fnv1aHash u) true)).
Proof.
  assert (Hpeek : ring r <> [] ->
    exists node, In node (ring r) /\ findNode (ring r) (fnv1aHash u) = Ok node /\
                 peek r u = Ok (Some (workerId node))).
  { intro Hne. destruct (findNode_total (ring r) (fnv1aHash u) Hne) as [node [Hf Hin]].
    exists node. split; [exact Hin|]. split; [exact Hf|].
    unfold peek. destruct (ring r); [contradiction|]. now rewrite Hf. }
  split; [|split].
  - intros e He. destruct (ring r) as [|first rest] eqn:E.
    + unfold peek in He. rewrite E in He. discriminate.
    + destruct Hpeek as (node & _ & _ & Hp); [discriminate|]. congruence.
  - split.
    + intro Hp. destruct (ring r) as [|first rest] eqn:E; [reflexivity|].
      destruct Hpeek as (node & _ & _ & Hp'); [discriminate|]. congruence.
    + intro E. unfold peek. now rewrite E.
  - intro Hne. destruct (Hpeek Hne) as (node & Hin & Hf & Hp).
    exists node. split; [exact Hin|]. split; [exact Hp|]. split.
    + intro Hnone. destruct (route_uncached r u Hne Hnone) as (node' & Hf' & _ & Hroute).
      rewrite Hroute. simpl. congruence.
    + assert (Hnone : map_get (routingCache (clearAssignment r u)) u = None).
      { apply map_get_None. simpl. unfold map_delete. intro Hin'.
        apply in_map_iff in Hin' as [[k v] [Hk Hkv]]. simpl in Hk. subst k.
        apply filter_In in Hkv as [_ Hkv]. simpl in Hkv. now rewrite eqb_refl in Hkv. }
      destruct (route_uncached (clearAssignment r u) u Hne Hnone)
        as (node' & Hf' & _ & Hroute).
      rewrite Hroute. simpl in *. congruence.
Qed.

(** *** [route] and registered workers *)

Lemma route_returns_registered (r : StickyRouter) (u : UserId) (d : RoutingDecision) :
  consistent r -> fst (route r u) = Ok d ->
  In (decisionWorkerId d) (workers r) /\ decisionUserId d = u /\
  hashValue d = fnv1aHash u.
Proof.
  intros (Hreg & _ & Hsub) Hd. unfold route in Hd.
  destruct (ring r) as [|first rest] eqn:Ering; [discriminate|].
  assert (Hgo : forall b,
    fst match findNode (first :: rest) (fnv1aHash u) with
        | Throw e => (Throw e, r)
        | Ok node =>
          (Ok (mkDecision (workerId node) u (fnv1aHash u) b),
           {| ring := first :: rest; workers := workers r;
              routingCache := map_set (routingCache r) u (workerId node);
              virtualNodes := virtualNodes r |})
        end = Ok d ->
    In (decisionWorkerId d) (workers r) /\ decisionUserId d = u /\
    hashValue d = fnv1aHash u).
  { intros b H. destruct (findNode (first :: rest) (fnv1aHash u)) as [node|e] eqn:Ef;
      [|discriminate].
    simpl in H. injection H as <-. simpl. repeat split.
    apply Hsub. rewrite ?Ering. eapply findNode_In; eassumption. }
  destruct (map_get (routingCache r) u) as [cw|] eqn:Eget.
  - destruct (cacheHit r (Some cw)) eqn:Ehit; [|eapply Hgo; eassumption].
    simpl in Hd. injection Hd as <-. simpl. repeat split.
    eapply Hreg, map_get_In, Eget.
  - eapply Hgo; eassumption.
Qed.

(** *** [removeWorker] *)

(** X4: on a consistent router, after [removeWorker(w)] the worker is
    not registered, no ring node carries it and no cache entry maps to
    it; the other workers keep their nodes and the users cached to them
    keep their entries; removing again changes nothing; and no later
    [route] returns [w]. *)
Theorem removeWorker_purges (r : StickyRouter) (w : WorkerId) :
  consistent r ->
  let r' := removeWorker r w in
  ~ In w (workers r') /\
  nodeCount w (ring r') = 0 /\
  (forall u, ~ In (u, w) (routingCache r')) /\
  (forall u w', w' <> w -> map_get (routingCache r) u = Some w' ->
                map_get (routingCache r') u = Some w') /\
  (forall w', w' <> w -> In w' (workers r) ->
              In w' (workers r') /\ nodeCount w' (ring r') = nodeCount w' (ring r)) /\
  removeWorker r' w = r' /\
  (forall u d, fst (route r' u) = Ok d -> decisionWorkerId d <> w).
Proof.
  intros Hc r'.
  assert (Hc' : consistent r') by now apply consistent_removeWorker.
  assert (Hout : ~ In w (workers r')).
  { subst r'. unfold removeWorker. destruct (set_has (workers r) w) eqn:E; simpl.
    - intro Hin. apply set_delete_In in Hin as [_ Hne]. now apply Hne.
    - now apply set_has_false. }
  split; [exact Hout|].
  split.
  { apply nodeCount_absent. intros n Hn E. apply Hout. rewrite <- E.
    destruct Hc' as (_ & _ & Hsub). now apply Hsub. }
  split.
  { intros u Hin. apply Hout. destruct Hc' as (Hreg & _). eapply Hreg; eassumption. }
  split.
  { intros u w' Hne Hget. subst r'. unfold removeWorker.
    destruct (set_has (workers r) w); simpl; [|exact Hget].
    apply map_get_filter; [exact Hget|]. simpl. now apply negb_true_iff, eqb_neq. }
  split.
  { intros w' Hne Hin. subst r'. unfold removeWorker.
    destruct (set_has (workers r) w); simpl; [|now split].
    split; [now apply set_delete_In | now apply nodeCount_filter_other]. }
  split.
  { unfold removeWorker at 1.
    replace (set_has (workers r') w) with false by (symmetry; now apply set_has_false).
    reflexivity. }
  intros u d Hd E.
  destruct (route_returns_registered r' u d Hc' Hd) as (Hin & _).
  apply Hout. now rewrite <- E.
Qed.

Lemma removeWorker_purges_witness :
  let r := snd (route (fold_left addWorker [lit "worker-0"; lit "worker-1"] (new 3))
                  (lit "user-1")) in
  ~ In (lit "worker-0") (workers (removeWorker r (lit "worker-0"))).
Proof.
  intro r.
  destruct (removeWorker_purges r (lit "worker-0")) as (H & _); [|exact H].
  apply reachable_consistent.
  exact (reach_step _ (OpRoute (lit "user-1"))
           (reach_step _ (OpAddWorker (lit "worker-1"))
              (reach_step _ (OpAddWorker (lit "worker-0")) (reach_new 3)))).
Defined.

Lemma sort_idem (l : list HashRingNode) : sort (sort l) = sort l.
Proof.
  pose proof (sort_sort_app l []) as H. now rewrite !app_nil_r in H.
Qed.

(** X5: on a router obtained through the operations, adding a worker
    that is not registered and removing it again gives back the router
    as it was: ring, worker set, cache and [virtualNodes]. *)
Theorem add_then_remove_restores (r : StickyRouter) (w : WorkerId) :
  reachable r -> ~ In w (workers r) ->
  removeWorker (addWorker r w) w = r.
Proof.
  intros Hr Hout.
  destruct (reachable_canonical r Hr) as (Hws & Hkeys & Hring).
  destruct (reachable_consistent r Hr) as (Hreg & _ & Hsub).
  assert (Hhas : set_has (workers r) w = false) by now apply set_has_false.
  assert (E1 : filter (fun node => negb (eqb (workerId node) w))
                 (sort (ring r ++ virtualNodesOf w (virtualNodes r))) = ring r).
  { rewrite filter_sort, filter_app.
    rewrite (filter_none _ (virtualNodesOf w (virtualNodes r))).
    - rewrite app_nil_r, filter_all.
      + rewrite Hring at 1. rewrite sort_idem. now symmetry.
      + intros n Hn. apply negb_true_iff, eqb_neq. intro E. apply Hout.
        rewrite <- E. now apply Hsub.
    - intros n Hn. rewrite (virtualNodesOf_workerId _ _ _ Hn), eqb_refl. reflexivity. }
  assert (E2 : set_delete (workers r ++ [w]) w = workers r).
  { unfold set_delete. rewrite filter_app. simpl. rewrite eqb_refl. simpl.
    rewrite app_nil_r. apply filter_all.
    intros x Hx. apply negb_true_iff, eqb_neq. intro E. subst x. contradiction. }
  assert (E3 : filter (fun kv : UserId * jsstring => negb (eqb (snd kv) w)) (routingCache r)
               = routingCache r).
  { apply filter_all. intros [u cw] Hin. simpl.
    apply negb_true_iff, eqb_neq. intro E. subst cw. apply Hout.
    eapply Hreg; eassumption. }
  unfold addWorker, invalidateAffectedRoutes, set_add. rewrite Hhas.
  unfold removeWorker. cbn [workers ring routingCache virtualNodes].
  replace (set_has (workers r ++ [w]) w) with true
    by (symmetry; apply set_has_In, in_or_app; right; now left).
  cbn [negb]. rewrite E1, E2, E3. symmetry. apply router_eta.
Qed.

Lemma add_then_remove_restores_witness :
  let r := snd (route (fold_left addWorker [lit "worker-0"; lit "worker-1"] (new 3))
                  (lit "user-1")) in
  removeWorker (addWorker r (lit "worker-2")) (lit "worker-2") = r.
Proof.
  intro r. apply add_then_remove_restores.
  - exact (reach_step _ (OpRoute (lit "user-1"))
             (reach_step _ (OpAddWorker (lit "worker-1"))
                (reach_step _ (OpAddWorker (lit "worker-0")) (reach_new 3)))).
  - vm_compute. intros [H|[H|[]]]; discriminate.
Defined.

(** *** [forceAssign] *)

(** X6: [forceAssign(u, w)] throws, and changes nothing, when [w] is not
    registered; otherwise it caches [u -> w], leaves every other user's
    entry, the ring and the workers as they are, and (for a worker id
    that is not the empty string, on a non-empty ring) the next [route]
    of [u] returns [w] with [isNewAssignment = false]. *)
Theorem forceAssign_contract (r : StickyRouter) (u : UserId) (w : WorkerId) :
  (~ In w (workers r) -> forceAssign r u w = (Throw (WorkerNotInPool w), r)) /\
  (In w (workers r) ->
   let r' := snd (forceAssign r u w) in
   fst (forceAssign r u w) = Ok tt /\
   map_get (routingCache r') u = Some w /\
   (forall u', u' <> u -> map_get (routingCache r') u' = map_get (routingCache r) u') /\
   ring r' = ring r /\ workers r' = workers r /\ virtualNodes r' = virtualNodes r /\
   (w <> [] -> ring r <> [] ->
    route r' u = (Ok (mkDecision w u (fnv1aHash u) false), r'))).
Proof.
  split.
  - intro Hout. unfold forceAssign.
    replace (set_has (workers r) w) with false by (symmetry; now apply set_has_false).
    reflexivity.
  - intros Hin r'. subst r'. unfold forceAssign.
    replace (set_has (workers r) w) with true by (symmetry; now apply set_has_In).
    cbn [negb fst snd routingCache ring workers virtualNodes].
    split; [reflexivity|].
    split; [apply map_get_set_same|].
    split; [intros u' Hne; apply map_get_set_other; congruence|].
    repeat (split; [reflexivity|]).
    intros Hw Hring. apply route_cached; simpl; try assumption.
    + apply map_get_set_same.
    + now apply set_has_In.
Qed.

Lemma forceAssign_contract_witness :
  let r := addWorker (new 3) (lit "worker-0") in
  fst (forceAssign r (lit "user-1") (lit "worker-0")) = Ok tt.
Proof.
  intro r.
  destruct (forceAssign_contract r (lit "user-1") (lit "worker-0")) as (_ & H).
  destruct H as (H & _); [|exact H].
  vm_compute. now left.
Defined.

(** *** [getDistribution] *)

Lemma dist_incr_sum (d : list (WorkerId * nat)) (w : WorkerId) :
  list_sum (map snd (dist_incr d w)) = list_sum (map snd d) + 1.
Proof.
  induction d as [|[k c] d IH]; simpl; [reflexivity|].
  destruct (eqb k w); simpl; [lia | rewrite IH; lia].
Qed.

Lemma dist_incr_keys (d : list (WorkerId * nat)) (w : WorkerId) :
  In w (map fst d) -> map fst (dist_incr d w) = map fst d.
Proof.
  induction d as [|[k c] d IH]; simpl; [contradiction|].
  intros [->|Hin].
  - now rewrite eqb_refl.
  - destruct (eqb k w); simpl; [reflexivity | now rewrite IH].
Qed.

Lemma fold_dist_incr (vs : list WorkerId) : forall d,
  list_sum (map snd (fold_left dist_incr vs d)) = list_sum (map snd d) + List.length vs /\
  ((forall v, In v vs -> In v (map fst d)) ->
   map fst (fold_left dist_incr vs d) = map fst d).
Proof.
  induction vs as [|v vs IH]; intro d; simpl.
  - split; [lia | reflexivity].
  - destruct (IH (dist_incr d v)) as [Hsum Hkeys]. split.
    + rewrite Hsum, dist_incr_sum. lia.
    + intro Hall.
      assert (Hk : map fst (dist_incr d v) = map fst d)
        by (apply dist_incr_keys, Hall; now left).
      rewrite Hkeys, Hk; [reflexivity|].
      intros v' Hv'. rewrite Hk. apply Hall. now right.
Qed.

(** X7: the counts of [getDistribution] add up to [routingTableSize],
    and on a consistent router its keys are exactly the registered
    workers, in order. *)
Theorem getDistribution_totals (r : StickyRouter) :
  list_sum (map snd (getDistribution r)) = routingTableSize r /\
  (consistent r -> map fst (getDistribution r) = workers r).
Proof.
  unfold getDistribution, routingTableSize.
  destruct (fold_dist_incr (map snd (routingCache r)) (map (fun w => (w, 0)) (workers r)))
    as [Hsum Hkeys].
  assert (Hk0 : map fst (map (fun w : WorkerId => (w, 0)) (workers r)) = workers r).
  { rewrite map_map. simpl. apply map_id. }
  split.
  - assert (Hz : forall ws : list WorkerId,
              list_sum (map snd (map (fun w : WorkerId => (w, 0)) ws)) = 0)
      by (induction ws; simpl; auto).
    rewrite Hsum, Hz, length_map. reflexivity.
  - intros (Hreg & _). rewrite Hkeys, Hk0; [reflexivity|].
    intros v Hv. rewrite Hk0. apply in_map_iff in Hv as [[u w] [<- Hin]].
    simpl. eapply Hreg; eassumption.
Qed.

Lemma getDistribution_totals_witness :
  let r := snd (route (fold_left addWorker [lit "worker-0"; lit "worker-1"] (new 3))
                  (lit "user-1")) in
  map fst (getDistribution r) = workers r.
Proof.
  intro r. destruct (getDistribution_totals r) as (_ & H). apply H.
  apply reachable_consistent.
  exact (reach_step _ (OpRoute (lit "user-1"))
           (reach_step _ (OpAddWorker (lit "worker-1"))
              (reach_step _ (OpAddWorker (lit "worker-0")) (reach_new 3)))).
Defined.

End RouterOps.

(** ** Further properties of the sandbox *)
Section SandboxMore.
Import JS Path Sandbox Props.

(** *** Sanitisation *)

Lemma replace_outside_idempotent (allowed : N -> bool) (s : jsstring) :
  allowed UNDERSCORE = true ->
  replace_outside allowed (replace_outside allowed s) = replace_outside allowed s.
Proof.
  intro Hu. unfold replace_outside. rewrite map_map. apply map_ext.
  intro c. destruct (allowed c) eqn:E; [now rewrite E | now rewrite Hu].
Qed.

Lemma replace_outside_fixed (allowed : N -> bool) (s : jsstring) :
  forallb allowed s = true -> replace_outside allowed s = s.
Proof.
  induction s as [|c s IH]; simpl; [reflexivity|].
  intro H. apply andb_true_iff in H as [Hc Hs]. now rewrite Hc, IH.
Qed.

Lemma replace_outside_allowed (allowed : N -> bool) (s : jsstring) :
  allowed UNDERSCORE = true -> forallb allowed (replace_outside allowed s) = true.
Proof.
  intro Hu. induction s as [|c s IH]; simpl; [reflexivity|].
  rewrite IH, andb_true_r. destruct (allowed c) eqn:E; assumption.
Qed.

(** X8: sanitising is idempotent: every path helper sends a name and
    its sanitised form to the same path; the sanitised name has the
    length of the name and only allowlisted code units, and a name made
    of allowlisted code units only is left as it is. *)
Theorem path_helpers_idempotent_on_names (sb : WorkerSandbox) (name : jsstring) :
  getSessionPath sb (replace_outside id_char name) = getSessionPath sb name /\
  getTempPath sb (replace_outside name_char name) = getTempPath sb name /\
  getCachePath sb (replace_outside name_char name) = getCachePath sb name /\
  getStatePath sb (replace_outside name_char name) = getStatePath sb name /\
  getLogPath sb (replace_outside name_char name) = getLogPath sb name /\
  getCredentialPath sb (replace_outside name_char name) = getCredentialPath sb name /\
  getConfigPath sb (replace_outside name_char name) = getConfigPath sb name /\
  List.length (replace_outside name_char name) = List.length name /\
  forallb name_char (replace_outside name_char name) = true /\
  forallb id_char (replace_outside id_char name) = true /\
  (forallb name_char name = true -> replace_outside name_char name = name) /\
  (forallb id_char name = true -> replace_outside id_char name = name).
Proof.
  unfold getSessionPath, getTempPath, getCachePath, getStatePath, getLogPath,
    getCredentialPath, getConfigPath.
  rewrite !replace_outside_idempotent by reflexivity.
  repeat (split; [reflexivity|]).
  split; [unfold replace_outside; apply length_map|].
  split; [now apply replace_outside_allowed|].
  split; [now apply replace_outside_allowed|].
  split; apply replace_outside_fixed.
Qed.

Lemma path_helpers_idempotent_witness :
  replace_outside name_char (lit "upload.tmp") = lit "upload.tmp".
Proof.
  destruct (path_helpers_idempotent_on_names
              (Sandbox.new (lit "w") (lit "/b")) (lit "upload.tmp"))
    as (_ & _ & _ & _ & _ & _ & _ & _ & _ & _ & H & _).
  apply H. reflexivity.
Defined.

(** *** Credential and config paths *)

(** X9: [getCredentialPath] and [getConfigPath] behave as the temp and
    cache helpers: the sanitised name is one segment below
    [credentials/] or [config/], except the names sanitising to the
    empty string or ["."] (the directory itself) and to [".."] (the
    sandbox root); in every case the path is the sandbox root or below
    it. *)
Theorem credential_and_config_paths_under_root (wid baseDir name : jsstring) :
  let sb := Sandbox.new wid baseDir in
  let safeName := replace_outside name_char name in
  let rootSegs := segments (root (paths sb)) in
  segments (getCredentialPath sb name) =
    (if eqb safeName [] || eqb safeName [DOT] then rootSegs ++ [lit "credentials"]
     else if eqb safeName [DOT; DOT] then rootSegs
     else rootSegs ++ [lit "credentials"; safeName]) /\
  segments (getConfigPath sb name) =
    (if eqb safeName [] || eqb safeName [DOT] then rootSegs ++ [lit "config"]
     else if eqb safeName [DOT; DOT] then rootSegs
     else rootSegs ++ [lit "config"; safeName]) /\
  under (root (paths sb)) (getCredentialPath sb name) /\
  under (root (paths sb)) (getConfigPath sb name).
Proof.
  intros sb safeName rootSegs.
  assert (HsafeName : ~ In SLASH safeName) by (apply replace_outside_no_slash; reflexivity).
  assert (Ecred : segments (getCredentialPath sb name) =
     (if eqb safeName [] || eqb safeName [DOT] then rootSegs ++ [lit "credentials"]
      else if eqb safeName [DOT; DOT] then rootSegs
      else rootSegs ++ [lit "credentials"; safeName])).
  { unfold getCredentialPath. rewrite join_one_segment by assumption.
    change (segments (credentials (paths sb))) with (rootSegs ++ [lit "credentials"]).
    apply push_under_subdir. discriminate. }
  assert (Econf : segments (getConfigPath sb name) =
     (if eqb safeName [] || eqb safeName [DOT] then rootSegs ++ [lit "config"]
      else if eqb safeName [DOT; DOT] then rootSegs
      else rootSegs ++ [lit "config"; safeName])).
  { unfold getConfigPath. rewrite join_one_segment by assumption.
    change (segments (config (paths sb))) with (rootSegs ++ [lit "config"]).
    apply push_under_subdir. discriminate. }
  assert (Hsub : forall dir, dir <> [DOT; DOT] ->
     exists rest,
       (if eqb safeName [] || eqb safeName [DOT] then rootSegs ++ [dir]
        else if eqb safeName [DOT; DOT] then rootSegs
        else rootSegs ++ [dir; safeName]) = rootSegs ++ rest /\ ~ In [DOT; DOT] rest).
  { intros dir Hd.
    destruct (eqb safeName [] || eqb safeName [DOT]).
    - exists [dir]. split; [reflexivity|]. intros [H|[]]. congruence.
    - destruct (eqb safeName [DOT; DOT]) eqn:E.
      + exists []. split; [now rewrite app_nil_r | intros []].
      + apply eqb_neq in E. exists [dir; safeName]. split; [reflexivity|].
        intros [H|[H|[]]]; congruence. }
  split; [exact Ecred|]. split; [exact Econf|].
  split; (split; [reflexivity|]).
  - rewrite Ecred. apply Hsub. discriminate.
  - rewrite Econf. apply Hsub. discriminate.
Qed.

(** *** Separate roots for separate workers *)

Lemma split_nonempty (s : jsstring) : split s <> [].
Proof.
  destruct s as [|c s]; simpl; [discriminate|].
  destruct (c =? SLASH)%N; [discriminate|]. destruct (split s); discriminate.
Qed.

Lemma split_app_slash (a b : jsstring) :
  split (a ++ SLASH :: b) = split a ++ split b.
Proof.
  induction a as [|c a IH]; simpl.
  - reflexivity.
  - destruct (c =? SLASH)%N; [now rewrite IH|].
    rewrite IH. pose proof (split_nonempty a) as Hne.
    destruct (split a); [contradiction | reflexivity].
Qed.

Lemma push_plain (allow : bool) (stack : list jsstring) (seg : jsstring) :
  plain_segment seg -> push_segment allow stack seg = stack ++ [seg].
Proof. intros (H0 & _ & H1 & H2). now apply push_plain_segment. Qed.

Lemma parse_join_plain (a w : jsstring) :
  a <> [] -> plain_segment w ->
  absolute (parse (a ++ SLASH :: w)) = absolute (parse a) /\
  segments (parse (a ++ SLASH :: w)) = segments (parse a) ++ [w].
Proof.
  intros Ha Hplain. pose proof Hplain as (_ & Hslash & _).
  destruct a as [|x a']; [contradiction|].
  unfold parse at 1 3. cbn [absolute segments].
  change ((x :: a') ++ SLASH :: w) with (x :: (a' ++ SLASH :: w)) at 1 2.
  cbv iota. split; [reflexivity|].
  change (x :: (a' ++ SLASH :: w)) with ((x :: a') ++ SLASH :: w).
  rewrite split_app_slash. unfold normalizeString. rewrite fold_left_app.
  rewrite (split_no_slash w) by assumption. cbn [fold_left].
  unfold parse. cbn [segments]. unfold normalizeString.
  now apply push_plain.
Qed.

(** The root of a sandbox whose worker id is a plain segment is the base
    directory with that one segment added. *)
Lemma root_of_plain_worker (wid baseDir : jsstring) :
  plain_segment wid ->
  absolute (root (paths (Sandbox.new wid baseDir))) = absolute (parse baseDir) /\
  segments (root (paths (Sandbox.new wid baseDir))) = segments (parse baseDir) ++ [wid].
Proof.
  intros Hplain. pose proof Hplain as (Hne & Hslash & _).
  cbn [Sandbox.new paths root]. unfold join_strings.
  destruct baseDir as [|b base].
  - destruct wid as [|c wid']; [contradiction|].
    unfold parse. cbn [absolute segments].
    assert (Hc : (c =? SLASH)%N = false).
    { apply N.eqb_neq. intro E. apply Hslash. left. now symmetry. }
    rewrite Hc. split; [reflexivity|].
    rewrite split_no_slash by assumption. simpl.
    now apply push_plain.
  - destruct wid as [|c wid']; [contradiction|].
    apply (parse_join_plain (b :: base) (c :: wid')); [discriminate | exact Hplain].
Qed.

(** X10: under one base directory, the sandboxes of two distinct worker
    ids that are plain segments (not empty, no separator, neither ["."]
    nor [".."]) are disjoint: no path is under both roots. *)
Theorem sandboxes_of_distinct_workers_disjoint (baseDir w1 w2 : jsstring) (p : path) :
  plain_segment w1 -> plain_segment w2 -> w1 <> w2 ->
  under (root (paths (Sandbox.new w1 baseDir))) p ->
  ~ under (root (paths (Sandbox.new w2 baseDir))) p.
Proof.
  intros H1 H2 Hne (_ & rest1 & E1 & _) (_ & rest2 & E2 & _).
  rewrite (proj2 (root_of_plain_worker w1 baseDir H1)) in E1.
  rewrite (proj2 (root_of_plain_worker w2 baseDir H2)) in E2.
  rewrite E1 in E2. rewrite <- !app_assoc in E2.
  apply app_inv_head in E2. simpl in E2. injection E2 as E _. contradiction.
Qed.

Lemma sandboxes_disjoint_witness :
  ~ under (root (paths (Sandbox.new (lit "worker-1") (lit "/tmp/moltbot-workers"))))
      (getTempPath (Sandbox.new (lit "worker-0") (lit "/tmp/moltbot-workers")) (lit "a.txt")).
Proof.
  apply (sandboxes_of_distinct_workers_disjoint
           (lit "/tmp/moltbot-workers") (lit "worker-0") (lit "worker-1")).
  - repeat split; try discriminate.
    vm_compute. intros H. repeat (destruct H as [H|H]; [discriminate|]). exact H.
  - repeat split; try discriminate.
    vm_compute. intros H. repeat (destruct H as [H|H]; [discriminate|]). exact H.
  - discriminate.
  - split; [reflexivity|]. exists [lit "temp"; lit "a.txt"]. split; [reflexivity|].
    intros [H|[H|[]]]; discriminate.
Defined.

(** *** Initialisation and metadata *)

Lemma getOrCreate_frame (sb : WorkerSandbox) (w : World) :
  metadataFiles (snd (getOrCreateInstanceKeys sb w)) = metadataFiles w /\
  now (snd (getOrCreateInstanceKeys sb w)) = now w.
Proof.
  unfold getOrCreateInstanceKeys.
  destruct (readFile w (keyPath sb)), (readFile w (idPath sb)); split; reflexivity.
Qed.

(** Once [getOrCreateInstanceKeys] has run, running it again on the same
    files returns the same key and fingerprint and writes nothing. *)
Lemma getOrCreate_stable (sb : WorkerSandbox) (w w2 : World) :
  files w2 = files (snd (getOrCreateInstanceKeys sb w)) ->
  exists keys',
    getOrCreateInstanceKeys sb w2 = (keys', w2) /\
    privateKey keys' = privateKey (fst (getOrCreateInstanceKeys sb w)) /\
    fingerprint keys' = fingerprint (fst (getOrCreateInstanceKeys sb w)).
Proof.
  intro Hfiles.
  assert (Hread : forall p, readFile w2 p = readFile (snd (getOrCreateInstanceKeys sb w)) p).
  { intro p. unfold readFile. now rewrite Hfiles. }
  destruct (readFile w (keyPath sb)) as [kh|] eqn:Ek;
    [destruct (readFile w (idPath sb)) as [idc|] eqn:Ei|].
  - rewrite (getOrCreate_reads_existing sb w kh idc Ek Ei) in *. simpl in Hread.
    eexists. split; [|split; reflexivity].
    apply getOrCreate_reads_existing; rewrite Hread; assumption.
  - rewrite (getOrCreate_generates sb w (or_intror Ei)) in *.
    destruct (generate_writes sb w) as (_ & Hfp & Hk & Hi & _).
    eexists. split.
    + apply getOrCreate_reads_existing; rewrite Hread; eassumption.
    + rewrite trim_toHex, fromHex_toHex. split; [reflexivity | now rewrite Hfp].
  - rewrite (getOrCreate_generates sb w (or_introl Ek)) in *.
    destruct (generate_writes sb w) as (_ & Hfp & Hk & Hi & _).
    eexists. split.
    + apply getOrCreate_reads_existing; rewrite Hread; eassumption.
    + rewrite trim_toHex, fromHex_toHex. split; [reflexivity | now rewrite Hfp].
Qed.

(** X11: [initialize()] on a new sandbox object marks it initialised and
    writes [sandbox.json] with the worker id, version 1, [lastAccessed]
    at the current time, the fingerprint of the keys it obtained, and
    [createdAt] taken from the metadata already on disk when there is
    one and the current time otherwise; a second [initialize()] on the
    object does nothing; [getInstanceKeys()] throws before
    initialisation and afterwards returns the same key and fingerprint
    without writing. *)
Theorem initialize_writes_metadata (wid baseDir : jsstring) (w : World) :
  let sb := Sandbox.new wid baseDir in
  exists keys sb' w',
    initialize sb w = (Some keys, sb', w') /\
    initialized sb' = true /\ workerId sb' = wid /\ paths sb' = paths sb /\
    getMetadata sb' w' =
      Some {| metaWorkerId := wid;
              createdAt := match getMetadata sb w with
                           | Some existing => createdAt existing
                           | None => now w
                           end;
              lastAccessed := now w;
              version := 1;
              keyFingerprint := Some (fingerprint keys) |} /\
    initialize sb' w' = (None, sb', w') /\
    fst (getInstanceKeys sb w) = Throw SandboxNotInitialized /\
    exists keys',
      getInstanceKeys sb' w' = (Ok keys', w') /\
      privateKey keys' = privateKey keys /\ fingerprint keys' = fingerprint keys.
Proof.
  intro sb.
  destruct (getOrCreate_frame sb w) as [Hmeta Hnow].
  destruct (getOrCreateInstanceKeys sb w) as [keys w1] eqn:Eg. cbn [fst snd] in *.
  eexists keys, _, _. split.
  { unfold initialize. change (initialized sb) with false. cbv iota.
    rewrite Eg. reflexivity. }
  split; [reflexivity|]. split; [reflexivity|]. split; [reflexivity|].
  split.
  { unfold getMetadata, writeMetadata, metadataPath. cbn [metadataFiles paths].
    rewrite lookup_update_same. rewrite Hmeta, Hnow. reflexivity. }
  split; [reflexivity|]. split; [reflexivity|].
  destruct (getOrCreate_stable sb w (writeMetadata sb w1
              {| metaWorkerId := workerId sb;
                 createdAt := match getMetadata sb w1 with
                              | Some existing => createdAt existing
                              | None => now w1
                              end;
                 lastAccessed := now w1; version := SANDBOX_VERSION;
                 keyFingerprint := Some (fingerprint keys) |}))
    as (keys' & Hget & Hpk & Hfp).
  { rewrite Eg. reflexivity. }
  rewrite Eg in Hpk, Hfp. cbn [fst] in Hpk, Hfp.
  exists keys'. split; [|split; assumption].
  unfold getInstanceKeys. cbn [initialized negb].
  change (getOrCreateInstanceKeys
            {| workerId := workerId sb; paths := paths sb; initialized := true |})
    with (getOrCreateInstanceKeys sb).
  rewrite Hget. reflexivity.
Qed.

End SandboxMore.

(** ** The environment of a child process *)
Section EnvFacts.
Import JS Pool.











Example filterSensitiveEnv_scenario :
  filterSensitiveEnv
    [ (lit "PATH", Some (lit "/usr/bin"));
      (lit "ANTHROPIC_API_KEY", Some (lit "sk-1"));
      (lit "FOO_TOKEN", Some (lit "t"));
      (lit "my_password", Some (lit "p"));
      (lit "HOME", Some (lit "/root"));
      (lit "TOKEN", Some (lit "kept"));
      (lit "UNSET", None) ]
  = [ (lit "PATH", lit "/usr/bin"); (lit "HOME", lit "/root"); (lit "TOKEN", lit "kept") ].
Proof. vm_compute. reflexivity. Qed.


(** *** The environment of a child *)







End EnvFacts.

(** ** Dispatch, pending requests and exits *)
Section DispatchFacts.
Import JS Pool.

Lemma findHealthyWorker_spec (ws : list (WorkerId * WorkerInstance)) :
  match findHealthyWorker ws with
  | Some worker => healthy (state worker) = true /\ exists key, In (key, worker) ws
  | None => forall key worker, In (key, worker) ws -> healthy (state worker) = false
  end.
Proof.
  induction ws as [|[k w] ws IH]; simpl.
  - intros key worker [].
  - destruct (healthy (state w)) eqn:E.
    + split; [exact E|]. exists k. now left.
    + destruct (findHealthyWorker ws) as [hw|].
      * destruct IH as [Hh [key Hin]]. split; [exact Hh|]. exists key. now right.
      * intros key worker [[= -> ->]|Hin]; [exact E | eapply IH; eassumption].
Qed.

Lemma get_In (m : list (WorkerId * WorkerInstance)) (w : WorkerId) (v : WorkerInstance) :
  get m w = Some v -> In (w, v) m.
Proof.
  induction m as [|[k v'] m IH]; simpl; [discriminate|].
  destruct (eqb k w) eqn:E.
  - apply eqb_eq in E. intros [= ->]. left. now subst.
  - intro H. right. now apply IH.
Qed.

(** X14: when [sendRequest] hands a request to a worker, the pool is
    started and that worker's record is in the pool and Ready or Busy:
    it is the worker [route] chose, or, when that one is neither Ready
    nor Busy, the first healthy record of the pool, and then the router
    has the user cached to that worker, which is registered. *)
Theorem sendRequest_dispatches_to_healthy
  (started : bool) (router router' : Router.StickyRouter)
  (ws : list (WorkerId * WorkerInstance)) (u : Router.UserId) (worker : WorkerInstance) :
  sendRequest started router ws u = (DispatchTo worker, router') ->
  started = true /\
  healthy (state worker) = true /\
  (exists key, In (key, worker) ws) /\
  exists decision,
    fst (Router.route router u) = Ok decision /\
    ((get ws (Router.decisionWorkerId decision) = Some worker /\
      router' = snd (Router.route router u))
     \/
     ((exists routed, get ws (Router.decisionWorkerId decision) = Some routed /\
                      healthy (state routed) = false) /\
      findHealthyWorker ws = Some worker /\
      Router.map_get (Router.routingCache router') u = Some (workerId worker) /\
      In (workerId worker) (Router.workers router'))).
Proof.
  unfold sendRequest. destruct started; simpl; [|discriminate].
  destruct (Router.route router u) as [[decision|e] router1] eqn:Er; [|discriminate].
  destruct (get ws (Router.decisionWorkerId decision)) as [routed|] eqn:Eg; [|discriminate].
  destruct (healthy (state routed)) eqn:Eh; simpl.
  - intros [= <- <-]. split; [reflexivity|]. split; [exact Eh|].
    split; [eexists; eapply get_In; eassumption|].
    exists decision. split; [reflexivity|]. left. split; [assumption | reflexivity].
  - pose proof (findHealthyWorker_spec ws) as Hspec.
    destruct (findHealthyWorker ws) as [hw|]; [|discriminate].
    destruct Hspec as [Hh Hin].
    unfold Router.forceAssign.
    destruct (Router.set_has (Router.workers router1) (workerId hw)) eqn:Ehas; simpl;
      [|discriminate].
    intros [= <- <-]. split; [reflexivity|]. split; [exact Hh|]. split; [exact Hin|].
    exists decision. split; [reflexivity|]. right.
    split; [exists routed; now split|]. split; [reflexivity|].
    simpl. split; [apply map_get_set_same | now apply set_has_In].
Qed.

Lemma sendRequest_dispatch_witness :
  let w0 := {| workerId := lit "worker-0"; process := true; state := Ready;
               restartCount := 0; restartTimes := []; pendingRequests := [] |} in
  healthy (state w0) = true.
Proof.
  intro w0.
  destruct (sendRequest_dispatches_to_healthy true
              (Router.addWorker (Router.new 2) (lit "worker-0"))
              (snd (Router.route (Router.addWorker (Router.new 2) (lit "worker-0"))
                      (lit "user-1")))
              [(lit "worker-0", w0)] (lit "user-1") w0) as (_ & H & _).
  - vm_compute. reflexivity.
  - exact H.
Defined.

(** *** Pending requests *)

Lemma pending_has_set_same (m : list jsstring) (id : jsstring) :
  pending_has (pending_set m id) id = true.
Proof.
  induction m as [|k m IH]; simpl.
  - now rewrite eqb_refl.
  - destruct (eqb k id) eqn:E; simpl; rewrite E; [reflexivity | exact IH].
Qed.

Lemma pending_has_set_other (m : list jsstring) (id k : jsstring) :
  k <> id -> pending_has (pending_set m id) k = pending_has m k.
Proof.
  intro Hne. induction m as [|x m IH]; simpl.
  - rewrite eqb_sym. apply eqb_neq in Hne. now rewrite Hne.
  - destruct (eqb x id) eqn:E; simpl; [reflexivity | now rewrite IH].
Qed.

Lemma pending_has_delete_same (m : list jsstring) (id : jsstring) :
  pending_has (pending_delete m id) id = false.
Proof.
  induction m as [|k m IH]; simpl; [reflexivity|].
  destruct (eqb k id) eqn:E; simpl; [exact IH | now rewrite E].
Qed.

Lemma pending_has_delete_other (m : list jsstring) (id k : jsstring) :
  k <> id -> pending_has (pending_delete m id) k = pending_has m k.
Proof.
  intro Hne. induction m as [|x m IH]; simpl; [reflexivity|].
  destruct (eqb x id) eqn:E; simpl.
  - apply eqb_eq in E. subst x.
    replace (eqb id k) with false by (symmetry; apply eqb_neq; congruence). exact IH.
  - now rewrite IH.
Qed.

(** X15: a request registered by [sendRequestToWorker] is pending; its
    response settles it exactly once (resolve or reject), removes it and
    leaves the other pending requests alone; a second response, a
    response that arrives after the request timed out, and a response
    with an id that is not pending are dropped with a warning and change
    nothing. *)
Theorem request_settled_at_most_once (worker : WorkerInstance) (response : WorkerResponse) :
  let id := requestId response in
  let sent := fst (sendRequestToWorker worker id) in
  let answered := handleResponse sent response in
  let timedOut := requestTimedOut sent id in
  pending_has (pendingRequests sent) id = true /\
  List.length (filter (settles id) (snd answered)) = 1 /\
  pending_has (pendingRequests (fst answered)) id = false /\
  (forall k, k <> id ->
     pending_has (pendingRequests (fst answered)) k = pending_has (pendingRequests worker) k) /\
  handleResponse (fst answered) response = (fst answered, [WarnUnknownResponse id]) /\
  List.length (filter (settles id) (snd timedOut)) = 1 /\
  handleResponse (fst timedOut) response = (fst timedOut, [WarnUnknownResponse id]) /\
  (pending_has (pendingRequests worker) id = false ->
   handleResponse worker response = (worker, [WarnUnknownResponse id])).
Proof.
  intros id sent answered timedOut.
  assert (Hsent : pending_has (pendingRequests sent) id = true)
    by (apply pending_has_set_same).
  assert (Eans : answered =
    (with_pending sent (pending_delete (pendingRequests sent) id),
     ClearTimer id ::
     (if success response
      then [EmitRequestComplete id (duration response); Resolve id]
      else [EmitRequestFailed id
              (match error response with Some e => e | None => lit "Unknown" end);
            Reject id]))).
  { unfold answered, handleResponse. fold id. now rewrite Hsent. }
  assert (Hdrop : forall wk, pending_has (pendingRequests wk) id = false ->
                    handleResponse wk response = (wk, [WarnUnknownResponse id])).
  { intros wk H. unfold handleResponse. fold id. now rewrite H. }
  split; [exact Hsent|].
  split.
  { rewrite Eans. cbn [snd filter settles]. destruct (success response);
      cbn [filter settles]; rewrite eqb_refl; reflexivity. }
  split; [rewrite Eans; apply pending_has_delete_same|].
  split.
  { intros k Hk. rewrite Eans. cbn [fst with_pending pendingRequests].
    rewrite pending_has_delete_other by assumption.
    now apply pending_has_set_other. }
  split; [apply Hdrop; rewrite Eans; apply pending_has_delete_same|].
  split; [cbn; now rewrite eqb_refl|].
  split; [apply Hdrop; apply pending_has_delete_same | exact (Hdrop worker)].
Qed.

(** *** Exit handling *)

Lemma get_set_other (m : list (WorkerId * WorkerInstance)) (w w' : WorkerId) (v : WorkerInstance) :
  w <> w' -> get (set m w v) w' = get m w'.
Proof.
  intro Hne. induction m as [|[k v'] m IH]; simpl.
  - apply eqb_neq in Hne. now rewrite Hne.
  - destruct (eqb k w) eqn:E; simpl.
    + apply eqb_eq in E. subst k. apply eqb_neq in Hne. now rewrite Hne.
    + destruct (eqb k w'); [reflexivity | exact IH].
Qed.

(** X16: [handleWorkerExit] does nothing for an unknown slot; for a known
    one it rejects every pending request of the slot, leaves it without
    process handle and pending requests, Stopped or Crashed, and touches
    no other slot; while the pool is stopping it emits nothing else,
    keeps the restart history, leaves the slot Stopped, and a restart
    timer that fires does nothing. *)
Theorem handleWorkerExit_rejects_pending (p : WorkerPool) (w : WorkerId) (now : Z) :
  (get (workers p) w = None -> handleWorkerExit p w now = p) /\
  (forall worker, get (workers p) w = Some worker ->
     let p' := handleWorkerExit p w now in
     (exists worker' tail,
        get (workers p') w = Some worker' /\
        process worker' = false /\ pendingRequests worker' = [] /\
        (state worker' = Stopped \/ state worker' = Crashed) /\
        log p' = log p ++ map RejectPending (pendingRequests worker) ++ tail /\
        (stopping p = true ->
         tail = [] /\ state worker' = Stopped /\
         restartTimes worker' = restartTimes worker /\
         restartCount worker' = restartCount worker)) /\
     (forall w', w' <> w -> get (workers p') w' = get (workers p) w') /\
     stopping p' = stopping p /\ config p' = config p /\
     (stopping p = true -> forall attempt, restartTimerFired p' w attempt = p')).
Proof.
  split.
  - intro Hnone. unfold handleWorkerExit. now rewrite Hnone.
  - intros worker Hget p'. subst p'. unfold handleWorkerExit. rewrite Hget.
    destruct (stopping p) eqn:Es.
    + cbn [workers log stopping config]. split.
      * eexists _, []. rewrite get_set_same, app_nil_r.
        split; [reflexivity|]. cbn. repeat split; auto.
      * split; [intros w' Hne; now apply get_set_other|].
        split; [reflexivity|]. split; [reflexivity|].
        intros _ attempt. unfold restartTimerFired. cbn [stopping]. reflexivity.
    + destruct (exitRecord (config p) worker now) as [worker' restart] eqn:Ex.
      cbn [workers log stopping config]. split.
      * assert (Hrec : process worker' = false /\ pendingRequests worker' = [] /\
                       (state worker' = Stopped \/ state worker' = Crashed)).
        { unfold exitRecord in Ex.
          destruct (Z.of_nat _ >=? _)%Z; injection Ex as <- _; cbn; auto. }
        destruct Hrec as (Hp & Hpend & Hst).
        eexists worker', _. rewrite get_set_same.
        split; [reflexivity|]. split; [exact Hp|]. split; [exact Hpend|].
        split; [exact Hst|]. split; [reflexivity|]. discriminate.
      * split; [intros w' Hne; now apply get_set_other|].
        split; [reflexivity|]. split; [reflexivity|]. discriminate.
Qed.

Lemma handleWorkerExit_witness :
  let p := {| config := DEFAULT_WORKER_POOL_CONFIG;
              workers := [(lit "worker-0",
                           {| workerId := lit "worker-0"; process := true; state := Busy;
                              restartCount := 0; restartTimes := [];
                              pendingRequests := [lit "req-1"] |})];
              stopping := true; log := [] |} in
  log (handleWorkerExit p (lit "worker-0") 5) = [RejectPending (lit "req-1")].
Proof.
  intro p.
  destruct (handleWorkerExit_rejects_pending p (lit "worker-0") 5) as (_ & H).
  destruct (H {| workerId := lit "worker-0"; process := true; state := Busy;
                 restartCount := 0; restartTimes := [];
                 pendingRequests := [lit "req-1"] |} eq_refl)
    as ((worker' & tail & _ & _ & _ & _ & Hlog & Hstop) & _).
  destruct (Hstop eq_refl) as (Htail & _).
  rewrite Hlog, Htail. reflexivity.
Defined.

(** X17: with a positive [restartWindow], after the restart bookkeeping
    of an exit every remembered restart time is less than
    [restartWindow] before [now] and is [now] or was remembered before;
    when a restart is scheduled the record is Stopped, [now] is the last
    entry, the restart count grew by one and at most
    [maxRestartAttempts] times are remembered; when none is scheduled
    the record is Crashed and at least [maxRestartAttempts] recent exits
    were on record. *)
Theorem exitRecord_keeps_window (cfg : WorkerPoolConfig) (worker : WorkerInstance) (now : Z) :
  (0 < restartWindow cfg)%Z ->
  let worker' := fst (exitRecord cfg worker now) in
  let restart := snd (exitRecord cfg worker now) in
  Forall (fun t => (now - t < restartWindow cfg)%Z) (restartTimes worker') /\
  (restart = true ->
     state worker' = Stopped /\
     (Z.of_nat (List.length (restartTimes worker')) <= maxRestartAttempts cfg)%Z /\
     restartCount worker' = restartCount worker + 1 /\
     last (restartTimes worker') 0%Z = now) /\
  (restart = false ->
     state worker' = Crashed /\
     (maxRestartAttempts cfg <= Z.of_nat (List.length (restartTimes worker')))%Z /\
     restartCount worker' = restartCount worker) /\
  (forall t, In t (restartTimes worker') -> t = now \/ In t (restartTimes worker)).
Proof.
  intros Hwin worker' restart. subst worker' restart. unfold exitRecord.
  set (times := filter (fun t => (now - t <? restartWindow cfg)%Z) (restartTimes worker)).
  assert (Hin : Forall (fun t => (now - t < restartWindow cfg)%Z) times).
  { apply Forall_forall. intros t Ht. apply filter_In in Ht as [_ Ht]. now apply Z.ltb_lt. }
  assert (Hsub : forall t, In t times -> In t (restartTimes worker)).
  { intros t Ht. now apply filter_In in Ht as [Ht _]. }
  destruct (Z.geb_spec (Z.of_nat (List.length times)) (maxRestartAttempts cfg)) as [Hge|Hlt];
    cbn [fst snd restartTimes state restartCount].
  - split; [exact Hin|]. split; [discriminate|].
    split; [intros _; repeat split; lia|]. intros t Ht. right. now apply Hsub.
  - split.
    { apply Forall_app. split; [exact Hin|]. constructor; [lia | constructor]. }
    split.
    { intros _. split; [reflexivity|]. split.
      - rewrite length_app. simpl. lia.
      - split; [reflexivity | apply last_last]. }
    split; [discriminate|].
    intros t Ht. apply in_app_or in Ht as [Ht|[<-|[]]]; [right; now apply Hsub | now left].
Qed.

Lemma exitRecord_keeps_window_witness :
  Forall (fun t => (70000 - t < 60000)%Z)
    (restartTimes (fst (exitRecord DEFAULT_WORKER_POOL_CONFIG
       {| workerId := lit "worker-0"; process := true; state := Ready;
          restartCount := 2; restartTimes := [1000; 20000]%Z; pendingRequests := [] |}
       70000))).
Proof.
  destruct (exitRecord_keeps_window DEFAULT_WORKER_POOL_CONFIG
       {| workerId := lit "worker-0"; process := true; state := Ready;
          restartCount := 2; restartTimes := [1000; 20000]%Z; pendingRequests := [] |}
       70000) as (H & _).
  - reflexivity.
  - exact H.
Defined.

End DispatchFacts.

(** ** What [route] changes *)
Section RouteEffect.
Import JS Hash Router Props.

(** X18: a [route] that returns leaves the user cached to the worker it
    returned and changes nothing else: the ring, the worker set,
    [virtualNodes] and every other user's entry are as before; a [route]
    that throws changes nothing, throws [NoWorkersAvailable], and does so
    exactly when the ring is empty. *)
Theorem route_caches_its_answer (r : StickyRouter) (u : UserId) :
  (forall d r', route r u = (Ok d, r') ->
     map_get (routingCache r') u = Some (decisionWorkerId d) /\
     decisionUserId d = u /\ hashValue d = fnv1aHash u /\
     ring r' = ring r /\ workers r' = workers r /\ virtualNodes r' = virtualNodes r /\
     (forall u', u' <> u -> map_get (routingCache r') u' = map_get (routingCache r) u')) /\
  (forall e r', route r u = (Throw e, r') ->
     e = NoWorkersAvailable /\ r' = r /\ ring r = []) /\
  (ring r = [] -> route r u = (Throw NoWorkersAvailable, r)).
Proof.
  split; [|split].
  - intros d r' Hroute. unfold route in Hroute.
    destruct (ring r) as [|first rest] eqn:Ering; [discriminate|].
    assert (Hgo : forall b,
      match findNode (first :: rest) (fnv1aHash u) with
      | Throw e => (Throw e, r)
      | Ok node =>
        (Ok (mkDecision (workerId node) u (fnv1aHash u) b),
         {| ring := first :: rest; workers := workers r;
            routingCache := map_set (routingCache r) u (workerId node);
            virtualNodes := virtualNodes r |})
      end = (Ok d, r') ->
      map_get (routingCache r') u = Some (decisionWorkerId d) /\
      decisionUserId d = u /\ hashValue d = fnv1aHash u /\
      ring r' = first :: rest /\ workers r' = workers r /\
      virtualNodes r' = virtualNodes r /\
      (forall u', u' <> u -> map_get (routingCache r') u' = map_get (routingCache r) u')).
    { intros b H. destruct (findNode (first :: rest) (fnv1aHash u)) as [node|e];
        [|discriminate].
      injection H as <- <-. cbn.
      split; [apply map_get_set_same|]. repeat (split; [reflexivity|]).
      intros u' Hne. apply map_get_set_other. congruence. }
    destruct (map_get (routingCache r) u) as [cw|] eqn:Eget.
    + destruct (cacheHit r (Some cw)) eqn:Ehit.
      * injection Hroute as <- <-. cbn.
        split; [exact Eget|]. repeat (split; [reflexivity|]). split; [exact Ering|].
        repeat (split; [reflexivity|]). reflexivity.
      * apply (Hgo _ Hroute).
    + apply (Hgo _ Hroute).
  - intros e r' Hroute.
    destruct (ring r) as [|first rest] eqn:Ering.
    + rewrite (route_empty r u Ering) in Hroute. injection Hroute as <- <-. auto.
    + exfalso.
      assert (Hex : exists e0, fst (route r u) = Throw e0) by (exists e; now rewrite Hroute).
      apply route_throws_iff in Hex. congruence.
  - apply route_empty.
Qed.

End RouteEffect.
